(** * asheetbly: a shallow embedding of [asheetbly/sheet.py]

    The sheet interpreter executes a program stored in the cells of a
    spreadsheet.  This development embeds the coordinate codec, the cell
    storage, the operand stack and the interpreter of [sheet.py] and states
    the properties of the specification against that embedding.

    Conventions of the embedding:
    - a Python [int] is a [Z]; a Python [float] is a primitive binary64
      float; a Python [str] is a [string] of bytes, which stands for ASCII
      text: [str.upper], [str.lower], [str.rstrip] and [float] are embedded
      as they act on ASCII characters, and a statement that depends on the
      letter case of a text it does not fix assumes [is_ascii];
    - a raised exception is a value of [exn]; code that can raise returns a
      [result];
    - [int(s)] has CPython's default limit of 4300 digits
      ([int_max_str_digits]); [str(n)] is modelled without it. *)

From Stdlib Require Import ZArith String Ascii List Bool Lia.
From Stdlib Require Import Floats.PrimFloat Floats.SpecFloat Floats.FloatOps.
From Stdlib Require Floats.FloatAxioms.
From stdpp Require Import base option gmap.
Import ListNotations.
Open Scope Z_scope.

(** ** Exceptions and results *)

Inductive exn : Type :=
  | InvalidA1Notation   (* sheet.py: class InvalidA1Notation *)
  | InvalidOpcode       (* sheet.py: class InvalidOpcode *)
  | ArithmeticError     (* sheet.py: class ArithmeticError (shadows the builtin) *)
  | InvalidArgument     (* sheet.py: class InvalidArgument *)
  | AssertionError
  | IndexError
  | AttributeError
  | TypeError
  | ValueError
  | ZeroDivisionError
  | OverflowError
  | RecursionError
  | EOFError.

Inductive result (A : Type) : Type :=
  | OK (a : A)
  | Raise (e : exn).
Arguments OK {A} a.
Arguments Raise {A} e.

#[global] Instance result_ret : MRet result := fun A a => OK a.
#[global] Instance result_bind : MBind result := fun A B f m =>
  match m with
  | OK a => f a
  | Raise e => Raise e
  end.

(** [assert c] of Python. *)
Definition py_assert (c : bool) : result unit :=
  if c then OK tt else Raise AssertionError.

(** ** Values

    The objects that live in cells and on the operand stack: [float], [str]
    and (from [random.randint] and from default arguments) [int]. *)

Inductive value : Type :=
  | VFloat (x : float)
  | VStr (s : string)
  | VInt (n : Z).

(** [type(v) == float] and [type(v) == str]. *)
Definition is_float (v : value) : bool :=
  match v with VFloat _ => true | _ => false end.
Definition is_str (v : value) : bool :=
  match v with VStr _ => true | _ => false end.

(** ** Characters and strings *)

Definition code (c : ascii) : Z := Z.of_N (N_of_ascii c).
Definition chr (n : Z) : ascii := ascii_of_N (Z.to_N n).

Definition is_upper (c : ascii) : bool := (65 <=? code c) && (code c <=? 90).
Definition is_lower (c : ascii) : bool := (97 <=? code c) && (code c <=? 122).
Definition is_letter (c : ascii) : bool := is_upper c || is_lower c.
Definition is_digit (c : ascii) : bool := (48 <=? code c) && (code c <=? 57).

Definition upper_char (c : ascii) : ascii :=
  if is_lower c then chr (code c - 32) else c.
Definition lower_char (c : ascii) : ascii :=
  if is_upper c then chr (code c + 32) else c.

(** [s.upper()] and [s.lower()] on ASCII text.  On other characters
    Python's methods follow Unicode (the long s U+017F upper-cases to S), which
    bytes cannot express: see [is_ascii]. *)
Fixpoint upper (s : string) : string :=
  match s with
  | EmptyString => EmptyString
  | String c s' => String (upper_char c) (upper s')
  end.
Fixpoint lower (s : string) : string :=
  match s with
  | EmptyString => EmptyString
  | String c s' => String (lower_char c) (lower s')
  end.

Definition str1 (c : ascii) : string := String c EmptyString.

(** The longest prefix of [s] whose characters satisfy [p], and the rest. *)
Fixpoint span (p : ascii -> bool) (s : string) : string * string :=
  match s with
  | EmptyString => (EmptyString, EmptyString)
  | String c s' =>
      if p c then let '(a, b) := span p s' in (String c a, b)
      else (EmptyString, s)
  end.

Fixpoint all_chars (p : ascii -> bool) (s : string) : bool :=
  match s with
  | EmptyString => true
  | String c s' => p c && all_chars p s'
  end.

Definition nonempty (s : string) : bool :=
  match s with EmptyString => false | _ => true end.

(** [s.isascii()]: every character is below 128. *)
Definition is_ascii_char (c : ascii) : bool := code c <? 128.
Definition is_ascii (s : string) : bool := all_chars is_ascii_char s.

(** ** Coordinate codec *)

(** [from string import ascii_uppercase as ALPHABET] *)
Definition ALPHABET : string := "ABCDEFGHIJKLMNOPQRSTUVWXYZ".

(** [ALPHABET.index(c)]: position of the first occurrence, [ValueError] when
    there is none. *)
Fixpoint index_from (s : string) (c : ascii) (i : Z) : result Z :=
  match s with
  | EmptyString => Raise ValueError
  | String d s' => if Ascii.eqb c d then OK i else index_from s' c (i + 1)
  end.
Definition ALPHABET_index (c : ascii) : result Z := index_from ALPHABET c 0.

(** [ALPHABET[i]] with Python's indexing: a negative index counts from the
    end, an index out of range raises [IndexError]. *)
Definition ALPHABET_get (i : Z) : result ascii :=
  let j := if i <? 0 then i + 26 else i in
  if (0 <=? j) && (j <? 26) then
    match String.get (Z.to_nat j) ALPHABET with
    | Some c => OK c
    | None => Raise IndexError
    end
  else Raise IndexError.

(** [_letters_to_numbers]: the loop body is [n = n*26 + ALPHABET.index(c.upper()) + 1]. *)
Fixpoint letters_loop (letters : string) (n : Z) : result Z :=
  match letters with
  | EmptyString => OK n
  | String c rest =>
      tmp ← ALPHABET_index (upper_char c);
      letters_loop rest (n * 26 + (tmp + 1))
  end.
Definition _letters_to_numbers (letters : string) : result Z :=
  letters_loop letters 0.

(** [_numbers_to_letters].  The recursion is on the quotient by 26; [depth]
    bounds the number of nested calls, and [_numbers_to_letters] supplies a
    bound that is never reached ([numbers_to_letters_unfold]). *)
Fixpoint numbers_to_letters_rec (depth : nat) (numbers : Z) : result string :=
  let q := numbers / 26 in
  let r := numbers mod 26 in
  let '(q, r) := if r =? 0 then (q - 1, 26) else (q, r) in
  if q =? 0 then
    a ← ALPHABET_get (r - 1); OK (str1 a)
  else if q <=? 26 then
    a ← ALPHABET_get (q - 1);
    b ← ALPHABET_get (r - 1);
    OK (String a (str1 b))
  else
    match depth with
    | O => Raise RecursionError
    | S depth' =>
        s ← numbers_to_letters_rec depth' q;
        b ← ALPHABET_get (r - 1);
        OK (String.append s (str1 b))
    end.
Definition _numbers_to_letters (numbers : Z) : result string :=
  numbers_to_letters_rec (Z.to_nat (Z.log2 numbers)) numbers.

(** [str(n)] for an [int]: decimal digits, most significant first. *)
Fixpoint digits_rec (fuel : nat) (n : Z) (acc : string) : string :=
  let acc' := String (chr (48 + n mod 10)) acc in
  if n <? 10 then acc'
  else
    match fuel with
    | O => acc'
    | S fuel' => digits_rec fuel' (n / 10) acc'
    end.
Definition str_of_nonneg (n : Z) : string :=
  digits_rec (Z.to_nat (Z.log2 n)) n EmptyString.
Definition str_of_int (n : Z) : string :=
  if n <? 0 then String "-" (str_of_nonneg (- n)) else str_of_nonneg n.

(** The value of a string of decimal digits. *)
Fixpoint digits_loop (s : string) (n : Z) : Z :=
  match s with
  | EmptyString => n
  | String c rest => digits_loop rest (n * 10 + (code c - 48))
  end.
Definition int_of_digits (s : string) : Z := digits_loop s 0.

(** CPython's default limit on the number of digits of an [int] read from a
    string ([sys.int_info.default_max_str_digits]). *)
Definition int_max_str_digits : Z := 4300.

(** [int(s)] for a string of decimal digits: [ValueError] when it has more
    digits than the limit, leading zeros included. *)
Definition py_int (s : string) : result Z :=
  if int_max_str_digits <? Z.of_nat (String.length s) then Raise ValueError
  else OK (int_of_digits s).

(** [A1_NOTATION = re.compile("^([A-Za-z]+)([0-9]+)$")] and its [match]:
    the two groups when the string matches.  In Python [$] matches at the end
    of the string and also just before a newline that ends the string. *)
Definition newline : string := str1 (chr 10).
Definition A1_NOTATION_match (a1 : string) : option (string * string) :=
  let '(letters, rest) := span is_letter a1 in
  let '(numbers, tail) := span is_digit rest in
  if nonempty letters && nonempty numbers
     && (String.eqb tail EmptyString || String.eqb tail newline)
  then Some (letters, numbers)
  else None.

(** [Sheet.a1_to_index]; [re.match] on an object that is not a [str] raises
    [TypeError]. *)
Definition a1_to_index (a1 : value) : result (Z * Z) :=
  match a1 with
  | VStr s =>
      match A1_NOTATION_match s with
      | Some (letters, numbers) =>
          col ← _letters_to_numbers letters;
          row ← py_int numbers;
          OK (col, row)
      | None => Raise InvalidA1Notation
      end
  | _ => Raise TypeError
  end.

(** The assertion shared by [Sheet.index_to_a1] and [Interpreter.argument]:
    [len(index)==2 and all([type(x)==int and x>0 for x in index])]. *)
Definition valid_index (index : Z * Z) : bool :=
  (0 <? fst index) && (0 <? snd index).

(** [Sheet.index_to_a1] *)
Definition index_to_a1 (index : Z * Z) : result string :=
  _ ← py_assert (valid_index index);
  letters ← _numbers_to_letters (fst index);
  OK (String.append letters (str_of_int (snd index))).

(** ** Python's numeric builtins on [float]

    [float(s)] on a string, [str(x)] on a float, [int(x)], [float(n)] and the
    float operators, computed on binary64 values.  Parsing covers what
    [float] accepts on ASCII text: surrounding white space, a sign, decimal
    digits with single underscores between them, a fraction, an exponent,
    and the words [inf], [infinity] and [nan]. *)

Definition prec : Z := 53.
Definition emax : Z := 1024.

(** [c.isspace()] on an ASCII character: what [str.rstrip()] removes. *)
Definition is_space (c : ascii) : bool :=
  ((9 <=? code c) && (code c <=? 13)) || ((28 <=? code c) && (code c <=? 32)).

(** The white space that [float] skips around an ASCII text: tab, line
    feed, vertical tab, form feed, carriage return and space.  The separators
    0x1C to 0x1F, white space for [str.isspace], are not: [float] refuses a
    text that starts or ends with one. *)
Definition is_float_space (c : ascii) : bool :=
  ((9 <=? code c) && (code c <=? 13)) || (code c =? 32).

Fixpoint lstrip_by (p : ascii -> bool) (s : string) : string :=
  match s with
  | EmptyString => EmptyString
  | String c s' => if p c then lstrip_by p s' else s
  end.

Fixpoint rstrip_by (p : ascii -> bool) (s : string) : string :=
  match s with
  | EmptyString => EmptyString
  | String c s' =>
      match rstrip_by p s' with
      | EmptyString => if p c then EmptyString else str1 c
      | t => String c t
      end
  end.

(** [s.rstrip()] *)
Definition rstrip (s : string) : string := rstrip_by is_space s.

(** The text [float] parses: [s] without the white space around it. *)
Definition float_strip (s : string) : string :=
  lstrip_by is_float_space (rstrip_by is_float_space s).

(** Underscores are accepted only between two digits; they are removed. *)
Fixpoint drop_underscores (prev_digit : bool) (s : string) : option string :=
  match s with
  | EmptyString => Some EmptyString
  | String c s' =>
      if Ascii.eqb c "_"%char then
        match s' with
        | String d _ =>
            if prev_digit && is_digit d then drop_underscores false s' else None
        | EmptyString => None
        end
      else
        match drop_underscores (is_digit c) s' with
        | Some t => Some (String c t)
        | None => None
        end
  end.

(** The correctly rounded binary64 value of [(-1)^s * m * 10^e]. *)
Definition decimal_to_SF (s : bool) (m : Z) (e : Z) : spec_float :=
  match m with
  | Z.pos p =>
      if 0 <=? e then
        binary_normalize prec emax (if s then - (m * 10 ^ e) else m * 10 ^ e) 0 s
      else
        match 10 ^ (- e) with
        | Z.pos d => SFdiv prec emax (S754_finite s p 0) (S754_finite false d 0)
        | _ => S754_nan
        end
  | _ => S754_zero s
  end.

(** A sign, then the rest of the text. *)
Definition take_sign (s : string) : bool * string :=
  match s with
  | String "-"%char s' => (true, s')
  | String "+"%char s' => (false, s')
  | _ => (false, s)
  end.

(** The exponent part [e[+-]digits], or nothing. *)
Definition parse_exponent (s : string) : option Z :=
  match s with
  | EmptyString => Some 0
  | String c s' =>
      if Ascii.eqb c "e"%char || Ascii.eqb c "E"%char then
        let '(neg, ds) := take_sign s' in
        if nonempty ds && all_chars is_digit ds then
          Some (if neg then - int_of_digits ds else int_of_digits ds)
        else None
      else None
  end.

Definition parse_decimal (neg : bool) (s : string) : option spec_float :=
  let '(ip, rest) := span is_digit s in
  let '(fp, rest') :=
    match rest with
    | String "."%char r => span is_digit r
    | _ => (EmptyString, rest)
    end in
  if nonempty ip || nonempty fp then
    match parse_exponent rest' with
    | Some ex =>
        Some (decimal_to_SF neg (int_of_digits (String.append ip fp))
                (ex - Z.of_nat (String.length fp)))
    | None => None
    end
  else None.

(** [float(s)] for a [str]. *)
Definition py_float (s : string) : result float :=
  let '(neg, body) := take_sign (float_strip s) in
  let word := lower body in
  if String.eqb word "inf" || String.eqb word "infinity" then
    OK (if neg then neg_infinity else infinity)
  else if String.eqb word "nan" then OK nan
  else
    match drop_underscores false body with
    | Some digits =>
        match parse_decimal neg digits with
        | Some x => OK (SF2Prim x)
        | None => Raise ValueError
        end
    | None => Raise ValueError
    end.

(** [floor(log10(num/den))] for positive [num] and [den]. *)
Definition ge_pow10 (num den k : Z) : bool :=
  if 0 <=? k then 10 ^ k * den <=? num else den <=? num * 10 ^ (- k).
Fixpoint log10_up (fuel : nat) (num den k : Z) : Z :=
  match fuel with
  | O => k
  | S f => if ge_pow10 num den (k + 1) then log10_up f num den (k + 1) else k
  end.
Fixpoint log10_down (fuel : nat) (num den k : Z) : Z :=
  match fuel with
  | O => k
  | S f => if ge_pow10 num den k then k else log10_down f num den (k - 1)
  end.
Definition floor_log10 (num den : Z) : Z :=
  let k0 := (Z.log2 num - Z.log2 den) * 1233 / 4096 in
  log10_up 4 num den (log10_down 4 num den k0).

(** The shortest decimal that reads back as [m * 2^e]: the digits as an
    integer, and the power of ten it is scaled by. *)
Definition reads_back (m : positive) (e : Z) (c k : Z) : bool :=
  match decimal_to_SF false c k with
  | S754_finite _ m' e' => Pos.eqb m m' && (e =? e')
  | _ => false
  end.
Fixpoint shortest_rec (todo : nat) (p : Z) (m : positive) (e : Z)
    (num den k10 : Z) : Z * Z :=
  let sc := p - 1 - k10 in
  let vn := if 0 <=? sc then num * 10 ^ sc else num in
  let vd := if 0 <=? sc then den else den * 10 ^ (- sc) in
  let lo := vn / vd in
  let rem := vn mod vd in
  let hi := lo + 1 in
  let lo_ok := reads_back m e lo (- sc) in
  let hi_ok := reads_back m e hi (- sc) in
  let pick :=
    if lo_ok && hi_ok then
      match 2 * rem ?= vd with
      | Lt => Some lo
      | Gt => Some hi
      | Eq => Some (if Z.even lo then lo else hi)
      end
    else if lo_ok then Some lo
    else if hi_ok then Some hi
    else None in
  match pick, todo with
  | Some c, _ => (c, - sc)
  | None, S todo' => shortest_rec todo' (p + 1) m e num den k10
  | None, O => (lo, - sc)
  end.
Definition shortest_decimal (m : positive) (e : Z) : Z * Z :=
  let num := if 0 <=? e then Z.pos m * 2 ^ e else Z.pos m in
  let den := if 0 <=? e then 1 else 2 ^ (- e) in
  shortest_rec 17 1 m e num den (floor_log10 num den).

Fixpoint rstrip_zeros (s : string) : string :=
  match s with
  | EmptyString => EmptyString
  | String c s' =>
      match rstrip_zeros s' with
      | EmptyString => if Ascii.eqb c "0"%char then EmptyString else str1 c
      | t => String c t
      end
  end.

Fixpoint zeros (n : nat) : string :=
  match n with
  | O => EmptyString
  | S n' => String "0"%char (zeros n')
  end.

(** The layout of [repr] for the digits [ds] with the decimal point [decpt]
    places after their start: scientific when [decpt <= -4] or [decpt > 16]. *)
Definition format_repr (ds : string) (decpt : Z) : string :=
  let n := Z.of_nat (String.length ds) in
  if (decpt <=? -4) || (16 <? decpt) then
    let ex := decpt - 1 in
    let frac := match ds with
                | String _ EmptyString | EmptyString => EmptyString
                | String _ t => String "."%char t
                end in
    let e_digits := str_of_nonneg (Z.abs ex) in
    let e_digits := if Z.abs ex <? 10 then String "0"%char e_digits else e_digits in
    String.append (String.substring 0 1 ds)
      (String.append frac
         (String "e"%char (String (if ex <? 0 then "-"%char else "+"%char) e_digits)))
  else if decpt <=? 0 then
    String.append "0." (String.append (zeros (Z.to_nat (- decpt))) ds)
  else if n <=? decpt then
    String.append ds (String.append (zeros (Z.to_nat (decpt - n))) ".0")
  else
    String.append (String.substring 0 (Z.to_nat decpt) ds)
      (String "."%char (String.substring (Z.to_nat decpt) (Z.to_nat (n - decpt)) ds)).

(** [str(x)] (and [repr(x)]) for a [float]. *)
Definition py_repr (x : float) : string :=
  match Prim2SF x with
  | S754_nan => "nan"
  | S754_infinity s => if s then "-inf" else "inf"
  | S754_zero s => if s then "-0.0" else "0.0"
  | S754_finite s m e =>
      let '(c, k) := shortest_decimal m e in
      let all := str_of_nonneg c in
      let body := format_repr (rstrip_zeros all) (Z.of_nat (String.length all) + k) in
      if s then String "-"%char body else body
  end.

(** [float(n)] for an [int]; CPython raises [OverflowError] when the integer
    is beyond the largest float. *)
Definition float_of_int (n : Z) : result float :=
  match binary_normalize prec emax n 0 false with
  | S754_infinity _ => Raise OverflowError
  | x => OK (SF2Prim x)
  end.

(** [int(x)] for a [float]: truncation towards zero. *)
Definition int_of_float (x : float) : result Z :=
  match Prim2SF x with
  | S754_nan => Raise ValueError
  | S754_infinity _ => Raise OverflowError
  | S754_zero _ => OK 0
  | S754_finite s m e =>
      let a := if 0 <=? e then Z.pos m * 2 ^ e else Z.pos m / 2 ^ (- e) in
      OK (if s then - a else a)
  end.

(** A float is falsy exactly when it equals zero. *)
Definition float_truthy (x : float) : bool := negb (PrimFloat.eqb x zero).

(** C's [fmod] for a non-zero divisor. *)
Definition fmod (x y : float) : float :=
  match Prim2SF x, Prim2SF y with
  | S754_nan, _ | _, S754_nan => nan
  | S754_infinity _, _ => nan
  | _, S754_infinity _ => x
  | S754_zero _, _ => x
  | _, S754_zero _ => nan
  | S754_finite sx mx ex, S754_finite _ my ey =>
      let e := Z.min ex ey in
      let r := (Z.pos mx * 2 ^ (ex - e)) mod (Z.pos my * 2 ^ (ey - e)) in
      SF2Prim (binary_normalize prec emax (if sx then - r else r) e sx)
  end.

(** [x / y] and [x % y] on floats ([float_div] and [float_rem] of CPython). *)
Definition float_truediv (x y : float) : result float :=
  if PrimFloat.eqb y zero then Raise ZeroDivisionError else OK (PrimFloat.div x y).
Definition float_mod (x y : float) : result float :=
  if PrimFloat.eqb y zero then Raise ZeroDivisionError
  else
    let m := fmod x y in
    if float_truthy m then
      OK (if xorb (PrimFloat.ltb y zero) (PrimFloat.ltb m zero)
          then PrimFloat.add m y else m)
    else OK (if PrimFloat.ltb y zero then neg_zero else zero).

(** ** Numbers, comparison and text of values *)

(** A Python number as the stack's frame boundaries hold them: [len(values)]
    is an [int], [len(values) - args] is a [float] when [args] is one. *)
Inductive num : Type :=
  | NInt (n : Z)
  | NFloat (x : float).

(** Python compares an [int] with a [float] by their exact values; [None]
    when the float is a NaN (every comparison with it is false). *)
Definition compare_int_float (n : Z) (x : float) : option comparison :=
  match Prim2SF x with
  | S754_nan => None
  | S754_infinity s => Some (if s then Gt else Lt)
  | S754_zero _ => Some (n ?= 0)
  | S754_finite s m e =>
      let v := if s then Z.neg m else Z.pos m in
      Some (if 0 <=? e then n ?= v * 2 ^ e else n * 2 ^ (- e) ?= v)
  end.

Definition compare_float (x y : float) : option comparison :=
  match PrimFloat.compare x y with
  | FEq => Some Eq
  | FLt => Some Lt
  | FGt => Some Gt
  | FNotComparable => None
  end.

Definition num_compare (a b : num) : option comparison :=
  match a, b with
  | NInt m, NInt n => Some (m ?= n)
  | NInt m, NFloat y => compare_int_float m y
  | NFloat x, NInt n => CompOpp <$> compare_int_float n x
  | NFloat x, NFloat y => compare_float x y
  end.

Definition num_eq (a b : num) : bool :=
  match num_compare a b with Some Eq => true | _ => false end.
Definition num_lt (a b : num) : bool :=
  match num_compare a b with Some Lt => true | _ => false end.
Definition num_gt (a b : num) : bool :=
  match num_compare a b with Some Gt => true | _ => false end.
Definition num_le (a b : num) : bool :=
  match num_compare a b with Some Lt | Some Eq => true | _ => false end.
Definition num_ge (a b : num) : bool :=
  match num_compare a b with Some Gt | Some Eq => true | _ => false end.

(** [not a] is true for the numbers equal to zero. *)
Definition num_truthy (a : num) : bool :=
  match a with
  | NInt n => negb (n =? 0)
  | NFloat x => float_truthy x
  end.

(** [n - a] for an [int] [n]. *)
Definition int_sub_num (n : Z) (a : num) : result num :=
  match a with
  | NInt m => OK (NInt (n - m))
  | NFloat x => fx ← float_of_int n; OK (NFloat (PrimFloat.sub fx x))
  end.

Definition to_num (v : value) : option num :=
  match v with
  | VFloat x => Some (NFloat x)
  | VInt n => Some (NInt n)
  | VStr _ => None
  end.

(** [v == w] *)
Definition py_eq (v w : value) : bool :=
  match v, w with
  | VStr s, VStr t => String.eqb s t
  | VStr _, _ | _, VStr _ => false
  | _, _ =>
      match to_num v, to_num w with
      | Some a, Some b => num_eq a b
      | _, _ => false
      end
  end.

(** [v < w] and [v > w]: numbers by value, strings in lexicographic order,
    [TypeError] between a string and a number. *)
Definition py_lt (v w : value) : result bool :=
  match v, w with
  | VStr s, VStr t => OK (match String.compare s t with Lt => true | _ => false end)
  | VStr _, _ | _, VStr _ => Raise TypeError
  | _, _ =>
      match to_num v, to_num w with
      | Some a, Some b => OK (num_lt a b)
      | _, _ => Raise TypeError
      end
  end.
Definition py_gt (v w : value) : result bool :=
  match v, w with
  | VStr s, VStr t => OK (match String.compare s t with Gt => true | _ => false end)
  | VStr _, _ | _, VStr _ => Raise TypeError
  | _, _ =>
      match to_num v, to_num w with
      | Some a, Some b => OK (num_gt a b)
      | _, _ => Raise TypeError
      end
  end.

(** [str(v)] *)
Definition py_str (v : value) : string :=
  match v with
  | VFloat x => py_repr x
  | VStr s => s
  | VInt n => str_of_int n
  end.

(** [_safe_float]: [float(n)], or [None] when it raises. *)
Definition _safe_float (n : string) : option float :=
  match py_float n with
  | OK x => Some x
  | Raise _ => None
  end.

(** ** Lists as Python uses them *)

(** [l.pop()]: the list without its last element, and that element. *)
Fixpoint unsnoc {A : Type} (l : list A) : option (list A * A) :=
  match l with
  | [] => None
  | x :: t =>
      match unsnoc t with
      | None => Some ([], x)
      | Some (i, y) => Some (x :: i, y)
      end
  end.

Definition len {A : Type} (l : list A) : Z := Z.of_nat (length l).

(** [l[i]] for an index already known to be non-negative. *)
Definition list_get {A : Type} (l : list A) (i : Z) : result A :=
  match l !! Z.to_nat i with
  | Some x => OK x
  | None => Raise IndexError
  end.

(** Where the slice [l[i:]] starts. *)
Definition slice_start {A : Type} (l : list A) (i : Z) : nat :=
  Z.to_nat (if i <? 0 then Z.max (len l + i) 0 else Z.min i (len l)).

(** ** Operand stack *)

Module Stack.

Record t : Type := mk { values : list value; frames : list num }.

(** [Stack()] *)
Definition empty : t := mk [] [].

Definition push (value : value) (self : t) : t :=
  mk (values self ++ [value]) (frames self).

Definition pop (self : t) : result (value * t) :=
  _ ← match unsnoc (frames self) with
      | Some (_, top) =>
          if num_le (NInt (len (values self))) top then Raise IndexError
          else OK tt
      | None => OK tt
      end;
  match unsnoc (values self) with
  | Some (rest, v) => OK (v, mk rest (frames self))
  | None => Raise IndexError
  end.

Definition popn (n : Z) (self : t) : result (list value * t) :=
  _ ← match unsnoc (frames self) with
      | Some (_, top) =>
          py_assert (num_gt (NInt (len (values self) - n + 1)) top)
      | None => OK tt
      end;
  _ ← py_assert (n <=? len (values self));
  let start := slice_start (values self) (- n) in
  OK (drop start (values self), mk (take start (values self)) (frames self)).

Definition push_frame (args : num) (self : t) : result t :=
  let args := if num_truthy args then args else NInt 0 in
  frametop ← int_sub_num (len (values self)) args;
  _ ← match unsnoc (frames self) with
      | Some (_, top) => py_assert (num_ge frametop top)
      | None => py_assert (num_ge frametop (NInt 0))
      end;
  boundary ← int_sub_num (len (values self)) args;
  OK (mk (values self) (frames self ++ [boundary])).

Definition pop_frame (self : t) : t :=
  match unsnoc (frames self) with
  | Some (rest, _) => mk (values self) rest
  | None => self
  end.

Definition peek (n : Z) (self : t) : result value :=
  let index := len (values self) - n in
  _ ← match frames self with
      | [] => OK tt
      | _ =>
          f ← list_get (frames self) 1;
          if num_le (NInt index) f then Raise IndexError else OK tt
      end;
  if index <? 0 then Raise IndexError
  else list_get (values self) index.

End Stack.

(** ** Cell storage *)

Module Sheet.

Record t : Type := mk { values : gmap (Z * Z) value }.

(** [Sheet()] *)
Definition empty : t := mk ∅.

Definition interpret_value (val : value) : value :=
  let val := py_str val in
  match _safe_float val with
  | Some n => if float_truthy n then VFloat n else VStr val
  | None => VStr val
  end.

Definition read (self : t) (index : Z * Z) (default : value) : value :=
  interpret_value
    match values self !! index with
    | Some v => v
    | None => default
    end.

Definition write (self : t) (index : Z * Z) (value : value) : t :=
  mk (<[index := interpret_value value]> (values self)).

(** [load_csv] on the rows [csv.reader] yields. *)
Fixpoint load_row (self : t) (row : list string) (coln rown : Z) : t :=
  match row with
  | [] => self
  | col :: rest => load_row (write self (coln, rown) (VStr col)) rest (coln + 1) rown
  end.
Fixpoint load_rows (self : t) (rows : list (list string)) (rown : Z) : t :=
  match rows with
  | [] => self
  | row :: rest => load_rows (load_row self row 1 rown) rest (rown + 1)
  end.
Definition load_csv (self : t) (rows : list (list string)) : t :=
  load_rows self rows 1.

End Sheet.

(** ** Interpreter state

    The fields of [Interpreter], and the world the opcodes talk to: the lines
    [input] will return, what was written to the console, and the draws of
    the random generator ([draws k] is the [k]-th, [drawn] counts those
    consumed). *)

Record Interpreter : Type := mkInterpreter {
  sheet : Sheet.t;
  _start : Z * Z;
  ip : Z * Z;
  stack : Stack.t;
  cond : bool;
  ret_stack : list (Z * Z);
  console_in : list string;
  console_out : list string;
  draws : nat -> Z;
  drawn : nat
}.

Definition set_sheet (x : Sheet.t) (s : Interpreter) : Interpreter :=
  mkInterpreter x (_start s) (ip s) (stack s) (cond s) (ret_stack s)
    (console_in s) (console_out s) (draws s) (drawn s).
Definition set_ip (x : Z * Z) (s : Interpreter) : Interpreter :=
  mkInterpreter (sheet s) (_start s) x (stack s) (cond s) (ret_stack s)
    (console_in s) (console_out s) (draws s) (drawn s).
Definition set_stack (x : Stack.t) (s : Interpreter) : Interpreter :=
  mkInterpreter (sheet s) (_start s) (ip s) x (cond s) (ret_stack s)
    (console_in s) (console_out s) (draws s) (drawn s).
Definition set_cond (x : bool) (s : Interpreter) : Interpreter :=
  mkInterpreter (sheet s) (_start s) (ip s) (stack s) x (ret_stack s)
    (console_in s) (console_out s) (draws s) (drawn s).
Definition set_ret_stack (x : list (Z * Z)) (s : Interpreter) : Interpreter :=
  mkInterpreter (sheet s) (_start s) (ip s) (stack s) (cond s) x
    (console_in s) (console_out s) (draws s) (drawn s).
Definition set_console_in (x : list string) (s : Interpreter) : Interpreter :=
  mkInterpreter (sheet s) (_start s) (ip s) (stack s) (cond s) (ret_stack s)
    x (console_out s) (draws s) (drawn s).
Definition set_console_out (x : list string) (s : Interpreter) : Interpreter :=
  mkInterpreter (sheet s) (_start s) (ip s) (stack s) (cond s) (ret_stack s)
    (console_in s) x (draws s) (drawn s).
Definition set_drawn (x : nat) (s : Interpreter) : Interpreter :=
  mkInterpreter (sheet s) (_start s) (ip s) (stack s) (cond s) (ret_stack s)
    (console_in s) (console_out s) (draws s) x.

(** [Interpreter.reset] *)
Definition reset (s : Interpreter) : Interpreter :=
  set_ret_stack [] (set_cond false (set_stack Stack.empty (set_ip (_start s) s))).

(** [Interpreter(sheet, start)] in a world with the given input lines and
    random draws; [start] defaults to [(1, 1)]. *)
Definition new_Interpreter (sh : Sheet.t) (start : Z * Z)
    (input_lines : list string) (rnd : nat -> Z) : Interpreter :=
  reset (mkInterpreter sh start start Stack.empty false [] input_lines [] rnd O).

(** ** The monad of opcode handlers: state and exceptions

    A handler either returns with the new state or raises; the state at the
    raise is kept, as the mutations made before it are. *)

Inductive outcome (A : Type) : Type :=
  | Done (a : A) (s : Interpreter)
  | Fail (e : exn) (s : Interpreter).
Arguments Done {A} a s.
Arguments Fail {A} e s.

Definition M (A : Type) : Type := Interpreter -> outcome A.

#[global] Instance M_ret : MRet M := fun A a s => Done a s.
#[global] Instance M_bind : MBind M := fun A B f m s =>
  match m s with
  | Done a s' => f a s'
  | Fail e s' => Fail e s'
  end.

Definition lift {A : Type} (r : result A) : M A := fun s =>
  match r with
  | OK a => Done a s
  | Raise e => Fail e s
  end.
Definition raise {A : Type} (e : exn) : M A := fun s => Fail e s.
Definition gets {A : Type} (f : Interpreter -> A) : M A := fun s => Done (f s) s.
Definition modify (f : Interpreter -> Interpreter) : M unit := fun s => Done tt (f s).

(** [try: body except: handler] with a bare [except]. *)
Definition try_except {A : Type} (body handler : M A) : M A := fun s =>
  match body s with
  | Done a s' => Done a s'
  | Fail _ s' => handler s'
  end.

(** The stack methods, on [self.stack]. *)
Definition push (v : value) : M unit :=
  modify (fun s => set_stack (Stack.push v (stack s)) s).
Definition pop : M value := fun s =>
  match Stack.pop (stack s) with
  | OK (v, st) => Done v (set_stack st s)
  | Raise e => Fail e s
  end.
Definition popn (n : Z) : M (list value) := fun s =>
  match Stack.popn n (stack s) with
  | OK (vs, st) => Done vs (set_stack st s)
  | Raise e => Fail e s
  end.
Definition peek (n : Z) : M value := fun s =>
  match Stack.peek n (stack s) with
  | OK v => Done v s
  | Raise e => Fail e s
  end.
Definition push_frame (args : num) : M unit := fun s =>
  match Stack.push_frame args (stack s) with
  | OK st => Done tt (set_stack st s)
  | Raise e => Fail e s
  end.
Definition pop_frame : M unit :=
  modify (fun s => set_stack (Stack.pop_frame (stack s)) s).

(** [self.sheet.read(index, default)] and [self.sheet.write(index, value)] *)
Definition read (index : Z * Z) (default : value) : M value :=
  gets (fun s => Sheet.read (sheet s) index default).
Definition write (index : Z * Z) (v : value) : M unit :=
  modify (fun s => set_sheet (Sheet.write (sheet s) index v) s).

(** [Interpreter.argument] *)
Definition argument (index : Z * Z) (n : Z) : result (Z * Z) :=
  _ ← py_assert (valid_index index);
  OK (fst index + n, snd index).

(** [self.sheet.read(self.argument(ip, n), default)] *)
Definition read_argument (ip : Z * Z) (n : Z) (default : value) : M value :=
  index ← lift (argument ip n);
  read index default.

(** ** The random generator *)

Definition next_draw : M Z := fun s =>
  Done (draws s (drawn s)) (set_drawn (S (drawn s)) s).

(** [random.random()]: a multiple of [2^-53] in [0, 1). *)
Definition random_random : M float :=
  k ← next_draw;
  mret (SF2Prim (binary_normalize prec emax (k mod 2 ^ 53) (-53) false)).

Definition as_float (a : num) : float :=
  match a with
  | NFloat x => x
  | NInt n => SF2Prim (binary_normalize prec emax n 0 false)
  end.

(** [random.uniform(a, b)] is [a + (b-a) * random()]. *)
Definition random_uniform (a b : num) : M float :=
  r ← random_random;
  mret (PrimFloat.add (as_float a)
          (PrimFloat.mul (PrimFloat.sub (as_float b) (as_float a)) r)).

(** [random.randint(a, b)]: [TypeError] when [b] is [None], [ValueError] on
    an empty range. *)
Definition random_randint (a : Z) (b : option Z) : M Z :=
  match b with
  | None => raise TypeError
  | Some b =>
      if b <? a then raise ValueError
      else k ← next_draw; mret (a + k mod (b - a + 1))
  end.

(** ** Console *)

(** [print(v)] *)
Definition print (v : value) : M unit :=
  modify (fun s =>
    set_console_out (console_out s ++ [String.append (py_str v) newline]) s).

(** [input(prompt)] *)
Definition input (prompt : string) : M string := fun s =>
  let s' := set_console_out (console_out s ++ [prompt]) s in
  match console_in s with
  | line :: rest => Done line (set_console_in rest s')
  | [] => Fail EOFError s'
  end.

(** ** Opcode handlers

    A handler receives [ip] (the [self.ip] of the call) and works on the
    interpreter; it returns [True] (here [true]) when it has set the
    instruction pointer itself and [None] (here [false]) otherwise. *)

Definition handler : Type := Z * Z -> M bool.

Definition ip_of (s : Interpreter) : Z * Z := ip s.
Definition self_cond : M bool := gets cond.

(** [Sheet.a1_to_index(self.sheet.read(self.argument(ip, 1)))] *)
Definition address_argument (ip : Z * Z) : M (Z * Z) :=
  cell ← read_argument ip 1 (VStr "");
  lift (a1_to_index cell).

(** *** Memory *)

Definition do_LOAD_CELL : handler := fun ip =>
  address ← address_argument ip;
  value ← read address (VStr "");
  _ ← push value;
  mret false.

Definition do_STORE_CELL : handler := fun ip =>
  address ← address_argument ip;
  value ← pop;
  _ ← write address value;
  mret false.

(** *** Stack operations *)

Definition do_DROP : handler := fun ip =>
  _ ← pop; mret false.

Definition do_DUP : handler := fun ip =>
  v ← peek 1; _ ← push v; mret false.

Definition do_OVER : handler := fun ip =>
  v ← peek 2; _ ← push v; mret false.

Fixpoint push_all (items : list value) : M unit :=
  match items with
  | [] => mret tt
  | item :: rest => _ ← push item; push_all rest
  end.

Definition do_SWAP : handler := fun ip =>
  items ← popn 2;
  _ ← push_all (rev items);
  mret false.

(** *** Arithmetic *)

Definition _binary_arithmetic_check : M (list value) :=
  items ← popn 2;
  if forallb is_float items then mret items else raise ArithmeticError.

(** [item1,item2 = self._binary_arithmetic_check(stack)] followed by
    [stack.push(item1 OP item2)]; after the check both items are floats. *)
Definition arithmetic (op : float -> float -> result float) : handler := fun ip =>
  items ← _binary_arithmetic_check;
  match items with
  | [VFloat item1; VFloat item2] =>
      r ← lift (op item1 item2);
      _ ← push (VFloat r);
      mret false
  | [_; _] => raise TypeError
  | _ => raise ValueError
  end.

Definition float_add (x y : float) : result float := OK (PrimFloat.add x y).
Definition float_sub (x y : float) : result float := OK (PrimFloat.sub x y).
Definition float_mul (x y : float) : result float := OK (PrimFloat.mul x y).

Definition do_ADD : handler := arithmetic float_add.
Definition do_SUB : handler := arithmetic float_sub.
Definition do_MULT : handler := arithmetic float_mul.
Definition do_DIV : handler := arithmetic float_truediv.
Definition do_FDIV : handler := arithmetic float_truediv.
Definition do_MOD : handler := arithmetic float_mod.

(** *** String operations *)

Definition do_UPPER : handler := fun ip =>
  v ← pop; _ ← push (VStr (upper (py_str v))); mret false.

Definition do_LOWER : handler := fun ip =>
  v ← pop; _ ← push (VStr (lower (py_str v))); mret false.

Definition do_CONCAT : handler := fun ip =>
  items ← popn 2;
  match map py_str items with
  | [item1; item2] =>
      _ ← push (Sheet.interpret_value (VStr (String.append item1 item2)));
      mret false
  | _ => raise ValueError
  end.

(** *** I/O operations *)

Definition do_IN : handler := fun ip =>
  cell ← read_argument ip 1 (VStr "");
  match cell with
  | VStr text =>
      line ← input (String.append (rstrip text) " ");
      _ ← push (Sheet.interpret_value (VStr line));
      mret false
  | _ => raise AttributeError   (* a float has no [rstrip] *)
  end.

Definition do_OUT : handler := fun ip =>
  v ← pop; _ ← print v; mret false.

(** *** Control flow *)

Definition do_TEST : handler := fun ip =>
  top ← peek 1;
  _ ← modify (set_cond (py_eq top (VInt 0)));
  mret false.

(** The body shared by [do_COMPARE], [do_LT] and [do_GT], which differ in
    the comparison operator only. *)
Definition compare_handler (cmp : value -> value -> result bool) : handler := fun ip =>
  address ← read_argument ip 1 (VStr "");
  _ ← try_except
        (address ← lift (a1_to_index address);
         value ← read address (VStr "");
         top ← peek 1;
         c ← lift (cmp top value);
         modify (set_cond c))
        (second ← peek 2;
         top ← peek 1;
         c ← lift (cmp second top);
         modify (set_cond c));
  mret false.

Definition do_COMPARE : handler := compare_handler (fun v w => OK (py_eq v w)).
Definition do_LT : handler := compare_handler py_lt.
Definition do_GT : handler := compare_handler py_gt.

Definition do_INVERT_COND : handler := fun ip =>
  _ ← modify (fun s => set_cond (negb (cond s)) s);
  mret false.

Definition do_JUMP : handler := fun ip =>
  address ← address_argument ip;
  _ ← modify (set_ip address);
  mret true.

Definition do_JUMP_IF : handler := fun ip =>
  c ← self_cond;
  if c : bool then do_JUMP ip else mret false.

(** [if type(args)==str: args=0] *)
Definition call_args (args : value) : num :=
  match args with
  | VStr _ => NInt 0
  | VFloat x => NFloat x
  | VInt n => NInt n
  end.

Definition do_CALL : handler := fun ip =>
  address ← address_argument ip;
  args ← read_argument ip 2 (VInt 0);
  _ ← push_frame (call_args args);
  _ ← modify (fun s => set_ret_stack (ret_stack s ++ [ip_of s]) s);
  _ ← modify (set_ip address);
  mret true.

Definition do_CALL_IF : handler := fun ip =>
  c ← self_cond;
  if c : bool then do_CALL ip else mret false.

Definition do_RETURN : handler := fun ip =>
  saved ← (fun s =>
             match unsnoc (ret_stack s) with
             | Some (rest, a) => Done a (set_ret_stack rest s)
             | None => Fail IndexError s
             end);
  _ ← modify (set_ip saved);
  _ ← pop_frame;
  mret false.

(** *** Random number generation *)

Definition do_RAND : handler := fun ip =>
  m ← read_argument ip 1 (VInt 0);
  n ← read_argument ip 2 (VInt 1);
  let m := match m with VFloat x => NFloat x | _ => NInt 0 end in
  let n := match n with VFloat x => NFloat x | _ => NInt 1 end in
  x ← (if num_eq m (NInt 0) && num_eq n (NInt 1) then random_random
       else random_uniform m n);
  _ ← push (VFloat x);
  mret false.

(** [if type(n)!=float: n=None] / [else: n=int(n)] *)
Definition optional_bound (n : value) : result (option Z) :=
  match n with
  | VFloat n => n ← int_of_float n; OK (Some n)
  | _ => OK None
  end.

(** The truth value of [n], an [int] or [None]. *)
Definition bound_truthy (n : option Z) : bool :=
  match n with
  | Some n => negb (n =? 0)
  | None => false
  end.

Definition do_RANDINT : handler := fun ip =>
  m ← read_argument ip 1 (VStr "");
  n ← read_argument ip 2 (VStr "");
  match m with
  | VFloat m =>
      m ← lift (int_of_float m);
      n ← lift (optional_bound n);
      let '(m, n) :=
        if negb (m =? 0) && negb (bound_truthy n) then (1, Some m) else (m, n) in
      r ← random_randint m n;
      _ ← push (VInt r);
      mret false
  | _ => raise InvalidArgument
  end.

(** ** The fetch-decode-execute loop *)

(** The methods of [Interpreter] whose name starts with [do_]. *)
Definition methods : list (string * handler) :=
  [ ("do_LOAD_CELL", do_LOAD_CELL); ("do_STORE_CELL", do_STORE_CELL);
    ("do_DROP", do_DROP); ("do_DUP", do_DUP); ("do_OVER", do_OVER);
    ("do_SWAP", do_SWAP);
    ("do_ADD", do_ADD); ("do_SUB", do_SUB); ("do_MULT", do_MULT);
    ("do_DIV", do_DIV); ("do_FDIV", do_FDIV); ("do_MOD", do_MOD);
    ("do_UPPER", do_UPPER); ("do_LOWER", do_LOWER); ("do_CONCAT", do_CONCAT);
    ("do_IN", do_IN); ("do_OUT", do_OUT);
    ("do_TEST", do_TEST); ("do_COMPARE", do_COMPARE); ("do_LT", do_LT);
    ("do_GT", do_GT); ("do_INVERT_COND", do_INVERT_COND);
    ("do_JUMP", do_JUMP); ("do_JUMP_IF", do_JUMP_IF);
    ("do_CALL", do_CALL); ("do_CALL_IF", do_CALL_IF); ("do_RETURN", do_RETURN);
    ("do_RAND", do_RAND); ("do_RANDINT", do_RANDINT) ]%string.

Fixpoint find_attr {A : Type} (name : string) (l : list (string * A)) : option A :=
  match l with
  | [] => None
  | (k, v) :: rest => if String.eqb name k then Some v else find_attr name rest
  end.

(** [getattr(self, name)] for a name that starts with [do_]: without a
    default, a missing attribute raises [AttributeError]. *)
Definition getattr (name : string) : result handler :=
  match find_attr name methods with
  | Some method => OK method
  | None => Raise AttributeError
  end.

(** The truth value of a bound method: always true. *)
Definition method_truthy (method : handler) : bool := true.

(** [self.ip[1] += 1] *)
Definition next_row (s : Interpreter) : Interpreter :=
  set_ip (fst (ip s), snd (ip s) + 1) s.

(** One turn of the [while True] loop of [run]. *)
Inductive turn : Type :=
  | Return (s : Interpreter)            (* [return] *)
  | Continue (s : Interpreter)          (* the loop goes on *)
  | Raised (e : exn) (s : Interpreter)  (* an exception leaves [run] *).

Definition run_turn (s : Interpreter) : turn :=
  let opcode := Sheet.read (sheet s) (ip s) (VStr "HALT") in
  if py_eq opcode (VStr "HALT") || negb (is_str opcode) then Return s
  else
    match getattr (String.append "do_" (upper (py_str opcode))) with
    | Raise e => Raised e s
    | OK method =>
        if negb (method_truthy method) then Raised InvalidOpcode s
        else
          match method (ip s) s with
          | Done jumped s' => Continue (if jumped then s' else next_row s')
          | Fail e s' => Raised e s'
          end
    end.

(** [Interpreter.run]: at most [fuel] turns of the loop; [Continue] is the
    answer when the loop is still going after them. *)
Fixpoint run (fuel : nat) (s : Interpreter) : turn :=
  match fuel with
  | O => Continue s
  | S fuel' =>
      match run_turn s with
      | Continue s' => run fuel' s'
      | stop => stop
      end
  end.

(** ** Tables of opcodes *)

(** The arithmetic opcodes and the operator each applies. *)
Definition arithmetic_opcodes : list (string * (float -> float -> result float)) :=
  [ ("ADD", float_add); ("SUB", float_sub); ("MULT", float_mul);
    ("DIV", float_truediv); ("FDIV", float_truediv); ("MOD", float_mod) ]%string.

(** The comparison opcodes and the comparison each makes. *)
Definition comparison_opcodes : list (handler * (value -> value -> result bool)) :=
  [ (do_COMPARE, fun v w => OK (py_eq v w)); (do_LT, py_lt); (do_GT, py_gt) ].

(** What an arithmetic opcode does with the pair [popn(2)] returned: the
    result is pushed on the stack [st'] left by [popn]. *)
Definition arithmetic_result (op : float -> float -> result float)
    (item1 item2 : value) (st' : Stack.t) (s : Interpreter) : outcome bool :=
  match item1, item2 with
  | VFloat x, VFloat y =>
      match op x y with
      | OK r => Done false (set_stack (Stack.push (VFloat r) st') s)
      | Raise e => Fail e (set_stack st' s)
      end
  | _, _ => Fail ArithmeticError (set_stack st' s)
  end.

(** ** Example programs *)

(** An interpreter over the sheet loaded from [rows], started at [start]
    with [st] as its operand stack, no console input and the random draws
    all zero. *)
Definition machine (rows : list (list string)) (start : Z * Z) (st : Stack.t)
    : Interpreter :=
  set_stack st (new_Interpreter (Sheet.load_csv Sheet.empty rows) start [] (fun _ => 0)).

(** Row 2 calls B1 with one argument; B1 returns at once. *)
Definition call_demo : Interpreter :=
  machine [[""; "RETURN"]; ["CALL"; "B1"; "1"]]%string (1, 2)
    (Stack.mk [VFloat 10] []).

Definition halt_lower_demo : Interpreter :=
  machine [["halt"]]%string (1, 1) Stack.empty.
Definition empty_cell_demo : Interpreter :=
  machine [[""; "x"]]%string (1, 1) Stack.empty.
Definition zero_cell_demo : Interpreter :=
  machine [["0"]]%string (1, 1) Stack.empty.
Definition unknown_opcode_demo : Interpreter :=
  machine [["FOO"]]%string (1, 1) Stack.empty.
Definition add_demo : Interpreter :=
  machine [["add"]]%string (1, 1) (Stack.mk [VFloat 2; VFloat 3] []).
Definition add_text_demo : Interpreter :=
  machine [["ADD"]]%string (1, 1) (Stack.mk [VFloat 2; VStr "x"] []).
Definition randint_demo : Interpreter :=
  machine [["RANDINT"; "6"]; ["ADD"]]%string (1, 1) (Stack.mk [VFloat 1] []).
Definition compare_address_demo : Interpreter :=
  machine [["COMPARE"; "C1"; "2"]]%string (1, 1) (Stack.mk [VFloat 1; VFloat 2] []).
Definition compare_literal_demo : Interpreter :=
  machine [["LT"; "7"]]%string (1, 1) (Stack.mk [VFloat 1; VFloat 2] []).
Definition div_zero_demo : Interpreter :=
  machine [["DIV"]]%string (1, 1) (Stack.mk [VFloat 1; VFloat 0] []).
(** The argument of LT is the address C1, which holds a text. *)
Definition lt_text_demo : Interpreter :=
  machine [["LT"; "C1"; "abc"]]%string (1, 1) (Stack.mk [VFloat 1; VFloat 2] []).

(** [randint_demo] after its first instruction, when the draw is zero. *)
Definition after_randint : Interpreter :=
  set_drawn 1 (set_stack (Stack.mk [VFloat 1; VInt 1] []) randint_demo).

(** The check behind [ALPHABET_get_index]: the letter at position [i] of the
    alphabet is found back at [i]. *)
Definition letter_ok (i : Z) : bool :=
  match ALPHABET_get i with
  | OK c =>
      match ALPHABET_index (upper_char c) with
      | OK j => (j =? i) && is_letter c
      | Raise _ => false
      end
  | Raise _ => false
  end.

(** The check behind [ALPHABET_index_letter]: the character with code [n],
    when it is a letter, is found in the alphabet once upper-cased. *)
Definition letter_found (n : Z) : bool :=
  let c := chr n in
  implb (is_letter c)
    match ALPHABET_index (upper_char c) with
    | OK k => (0 <=? k) && (k <? 26)
    | Raise _ => false
    end.

(** ** Fields of the rows given to [load_csv] *)

(** The field of [rows] that [load_csv] writes to the cell [(c, r)]. *)
Definition field_at (rows : list (list string)) (c r : Z) : option string :=
  if (1 <=? c) && (1 <=? r) then
    match rows !! Z.to_nat (r - 1) with
    | Some row => row !! Z.to_nat (c - 1)
    | None => None
    end
  else None.

(** The field of [row] that lands in column [c] when the row is written
    from column [c0] on. *)
Definition shifted_field (row : list string) (c0 c : Z) : option string :=
  if c0 <=? c then row !! Z.to_nat (c - c0) else None.

(** ** Upper-casing, one character at a time *)

(** The check behind the lemmas on [upper_char]: what upper-casing the
    character with code [n] keeps. *)
Definition upper_char_ok (n : Z) : bool :=
  let c := chr n in
  Bool.eqb (is_letter (upper_char c)) (is_letter c)
  && Bool.eqb (is_digit (upper_char c)) (is_digit c)
  && Ascii.eqb (upper_char (upper_char c)) (upper_char c)
  && Ascii.eqb (upper_char (lower_char c)) (upper_char c)
  && Bool.eqb (Ascii.eqb (upper_char c) (chr 10)) (Ascii.eqb c (chr 10))
  && implb (is_digit c) (Ascii.eqb (upper_char c) c).

(** ** Families of handlers *)

(** The handlers that are neither control-flow opcodes nor STORE_CELL. *)
Definition plain_methods : list (string * handler) :=
  [ ("do_LOAD_CELL", do_LOAD_CELL);
    ("do_DROP", do_DROP); ("do_DUP", do_DUP); ("do_OVER", do_OVER);
    ("do_SWAP", do_SWAP);
    ("do_ADD", do_ADD); ("do_SUB", do_SUB); ("do_MULT", do_MULT);
    ("do_DIV", do_DIV); ("do_FDIV", do_FDIV); ("do_MOD", do_MOD);
    ("do_UPPER", do_UPPER); ("do_LOWER", do_LOWER); ("do_CONCAT", do_CONCAT);
    ("do_IN", do_IN); ("do_OUT", do_OUT);
    ("do_TEST", do_TEST); ("do_COMPARE", do_COMPARE); ("do_LT", do_LT);
    ("do_GT", do_GT); ("do_INVERT_COND", do_INVERT_COND);
    ("do_RAND", do_RAND); ("do_RANDINT", do_RANDINT) ]%string.

(** The control-flow handlers. *)
Definition control_methods : list (string * handler) :=
  [ ("do_JUMP", do_JUMP); ("do_JUMP_IF", do_JUMP_IF);
    ("do_CALL", do_CALL); ("do_CALL_IF", do_CALL_IF);
    ("do_RETURN", do_RETURN) ]%string.

(** The names of the control-flow opcodes. *)
Definition control_opcodes : list string :=
  [ "JUMP"; "JUMP_IF"; "CALL"; "CALL_IF"; "RETURN" ]%string.

(** ** What a handler leaves alone *)

(** A result that is not the exception [InvalidOpcode]. *)
Definition safe {A : Type} (r : result A) : Prop := r <> Raise InvalidOpcode.

(** [m] respects [R]: whether it returns or raises, the state it leaves is
    related by [R] to the state it started from, and what it raises is not
    [InvalidOpcode]. *)
Definition respects {A : Type} (R : Interpreter -> Interpreter -> Prop) (m : M A)
    : Prop :=
  forall s,
    match m s with
    | Done _ s' => R s s'
    | Fail e s' => R s s' /\ e <> InvalidOpcode
    end.

(** What the handlers that are not control-flow opcodes leave alone. *)
Definition same_flow (s s' : Interpreter) : Prop :=
  _start s' = _start s
  /\ ip s' = ip s
  /\ ret_stack s' = ret_stack s
  /\ Stack.frames (stack s') = Stack.frames (stack s).

(** What every handler but [do_STORE_CELL] leaves alone. *)
Definition same_sheet (s s' : Interpreter) : Prop := sheet s' = sheet s.

(** No constraint on the state: all that [respects anything] says is about
    the exception. *)
Definition anything (s s' : Interpreter) : Prop := True.

(** One frame for each pending return address. *)
Definition balanced (s : Interpreter) : Prop :=
  length (Stack.frames (stack s)) = length (ret_stack s).

Definition keeps_balance (s s' : Interpreter) : Prop := balanced s -> balanced s'.

(** A handler that returns [None], so that [run] moves to the next row. *)
Definition returns_false (m : M bool) : Prop :=
  forall s jumped s', m s = Done jumped s' -> jumped = false.

(** The interpreter a turn of the loop leaves. *)
Definition state_of (t : turn) : Interpreter :=
  match t with
  | Return s | Continue s | Raised _ s => s
  end.

(** No cell of the sheet reads as text that upper-cases to [name]. *)
Definition opcode_free (name : string) (sh : Sheet.t) : bool :=
  forallb (fun kv : (Z * Z) * value =>
             match Sheet.interpret_value (snd kv) with
             | VStr op => negb (String.eqb (upper op) name)
             | _ => true
             end)
          (map_to_list (Sheet.values sh)).

(** ** More example programs *)

(** The string of [n] copies of [c]. *)
Fixpoint repeat_char (c : ascii) (n : nat) : string :=
  match n with
  | O => EmptyString
  | S n' => String c (repeat_char c n')
  end.

(** The address of column A with a row of 4301 digits. *)
Definition long_row_address : string := String "A" (repeat_char "1" 4301).


(** A1 loads C1, which holds the text 0; A2 tests it. *)
Definition zero_load_demo : Interpreter :=
  machine [["LOAD_CELL"; "C1"; "0"]; ["TEST"]]%string (1, 1) Stack.empty.

(** A1 tests the top of the stack, A2 jumps to C5 when it is zero. *)
Definition test_jump_demo (x : float) : Interpreter :=
  machine [["TEST"]; ["JUMP_IF"; "C5"]]%string (1, 1) (Stack.mk [VFloat x] []).

(** A1 jumps to A1, in lower case. *)
Definition loop_demo : Interpreter :=
  machine [["jump"; "a1"]]%string (1, 1) Stack.empty.

(** A1 stores the top of the stack in D4, A2 loads D4. *)
Definition store_load_demo : Interpreter :=
  machine [["STORE_CELL"; "D4"]; ["LOAD_CELL"; "D4"]]%string (1, 1)
    (Stack.mk [VFloat 7; VStr "note"] []).

(** * Properties *)

(** ** Characters *)

Lemma code_range (c : ascii) : 0 <= code c < 256.
Proof.
  unfold code. pose proof (N_ascii_bounded c) as H. lia.
Qed.

Lemma code_chr (n : Z) : 0 <= n < 256 -> code (chr n) = n.
Proof.
  intros H. unfold code, chr.
  rewrite N_ascii_embedding by lia. lia.
Qed.

Lemma chr_code (c : ascii) : chr (code c) = c.
Proof.
  unfold code, chr. rewrite N2Z.id. apply ascii_N_embedding.
Qed.

Lemma digit_not_letter (c : ascii) : is_digit c = true -> is_letter c = false.
Proof.
  unfold is_letter, is_upper, is_lower, is_digit. lia.
Qed.

(** ** The alphabet *)

Lemma letter_ok_all : forallb letter_ok (map Z.of_nat (seq 0 26)) = true.
Proof. vm_compute. reflexivity. Qed.

Lemma ALPHABET_get_index (i : Z) :
  0 <= i < 26 ->
  exists c, ALPHABET_get i = OK c
            /\ ALPHABET_index (upper_char c) = OK i
            /\ is_letter c = true.
Proof.
  intros Hi.
  assert (Hok : letter_ok i = true).
  { pose proof letter_ok_all as H.
    rewrite forallb_forall in H. apply H.
    apply in_map_iff. exists (Z.to_nat i). split; [lia|].
    apply in_seq. lia. }
  unfold letter_ok in Hok.
  destruct (ALPHABET_get i) as [c|]; [|discriminate].
  destruct (ALPHABET_index (upper_char c)) as [j|] eqn:Hidx; [|discriminate].
  apply andb_prop in Hok as [Hj Hl].
  apply Z.eqb_eq in Hj. subst j.
  exists c. auto.
Qed.

Lemma index_from_ge (s : string) (c : ascii) (i j : Z) :
  index_from s c i = OK j -> i <= j.
Proof.
  revert i. induction s as [|d s IH]; intros i; simpl; [discriminate|].
  destruct (Ascii.eqb c d).
  - intros [= ->]. lia.
  - intros H. apply IH in H. lia.
Qed.

(** ** Letters to numbers *)

Lemma letters_loop_app (s t : string) (n : Z) :
  letters_loop (String.append s t) n
  = match letters_loop s n with
    | OK m => letters_loop t m
    | Raise e => Raise e
    end.
Proof.
  revert n. induction s as [|c s IH]; intros n; simpl; [reflexivity|].
  destruct (ALPHABET_index (upper_char c)) as [k|e]; simpl; [apply IH|reflexivity].
Qed.

Lemma letters_loop_pos (s : string) (n m : Z) :
  letters_loop s n = OK m -> 0 <= n -> nonempty s = true -> 0 < m.
Proof.
  revert n. induction s as [|c s IH]; intros n; simpl; [discriminate|].
  destruct (ALPHABET_index (upper_char c)) as [k|e] eqn:Hk; simpl; [|discriminate].
  intros H Hn _. apply index_from_ge in Hk.
  destruct s as [|c' s'].
  - simpl in H. injection H as <-. lia.
  - eapply IH; [exact H| lia | reflexivity].
Qed.

Lemma all_chars_app (p : ascii -> bool) (s t : string) :
  all_chars p (String.append s t) = all_chars p s && all_chars p t.
Proof.
  induction s as [|c s IH]; simpl; [reflexivity|].
  rewrite IH. apply andb_assoc.
Qed.

Lemma nonempty_app_l (s t : string) :
  nonempty s = true -> nonempty (String.append s t) = true.
Proof. destruct s; [discriminate | reflexivity]. Qed.

(** ** Numbers to letters *)

Lemma log2_quotient (n q : Z) (d : nat) :
  0 < q -> 2 * q <= n -> Z.log2 n <= Z.of_nat (S d) -> Z.log2 q <= Z.of_nat d.
Proof.
  intros Hq Hn Hlog.
  assert (Hlt : Z.log2 q < Z.log2 n).
  { apply Z.log2_lt_pow2; [lia|].
    pose proof (Z.log2_spec n ltac:(lia)) as [_ Hup].
    replace (Z.succ (Z.log2 n)) with (Z.log2 n + 1) in Hup by lia.
    rewrite Z.pow_add_r in Hup by (try apply Z.log2_nonneg; lia).
    lia. }
  lia.
Qed.

Lemma numbers_to_letters_rec_spec (depth : nat) (n : Z) :
  0 < n -> Z.log2 n <= Z.of_nat depth ->
  exists s, numbers_to_letters_rec depth n = OK s
            /\ nonempty s = true
            /\ all_chars is_letter s = true
            /\ _letters_to_numbers s = OK n.
Proof.
  revert n. induction depth as [|d IH]; intros n Hn Hlog.
  all: unfold numbers_to_letters_rec; fold numbers_to_letters_rec.
  all: pose proof (Z.div_mod n 26 ltac:(lia)) as Hdm.
  all: pose proof (Z.mod_pos_bound n 26 ltac:(lia)) as Hr.
  all: assert (Hq0 : 0 <= n / 26) by (apply Z.div_pos; lia).
  all: set (qr := if n mod 26 =? 0 then (n / 26 - 1, 26) else (n / 26, n mod 26)).
  all: assert (Hqr : n = 26 * fst qr + snd qr /\ 1 <= snd qr <= 26 /\ 0 <= fst qr)
         by (subst qr; destruct (Z.eqb_spec (n mod 26) 0); simpl; lia).
  all: destruct qr as [q r]; simpl in Hqr; destruct Hqr as (Hnq & Hrr & Hqq).
  all: destruct (ALPHABET_get_index (r - 1) ltac:(lia)) as (b & Hb & Hbi & Hbl).
  all: destruct (Z.eqb_spec q 0) as [->|Hq].
  all: try (rewrite Hb; simpl; exists (str1 b); repeat split;
            [simpl; now rewrite Hbl
            |unfold _letters_to_numbers; simpl; rewrite Hbi; simpl; f_equal; lia]).
  all: destruct (Z.leb_spec q 26) as [Hle|Hgt].
  all: try (destruct (ALPHABET_get_index (q - 1) ltac:(lia)) as (a & Ha & Hai & Hal);
            rewrite Ha, Hb; simpl; exists (String a (str1 b)); repeat split;
            [simpl; now rewrite Hal, Hbl
            |unfold _letters_to_numbers; simpl; rewrite Hai; simpl; rewrite Hbi; simpl;
             f_equal; lia]).
  - (* depth exhausted: impossible, as [n >= 27 * 26] *)
    exfalso.
    assert (Hbig : 2 ^ 1 <= n) by lia.
    apply Z.log2_le_pow2 in Hbig; lia.
  - destruct (IH q ltac:(lia)) as (s & Hs & Hne & Hall & Hl2n).
    { eapply log2_quotient with (n := n); lia. }
    rewrite Hs, Hb. simpl.
    exists (String.append s (str1 b)). repeat split.
    + now apply nonempty_app_l.
    + rewrite all_chars_app, Hall. simpl. now rewrite Hbl.
    + unfold _letters_to_numbers in *. rewrite letters_loop_app, Hl2n.
      simpl. rewrite Hbi. simpl. f_equal. lia.
Qed.

Lemma numbers_to_letters_spec (n : Z) :
  0 < n ->
  exists s, _numbers_to_letters n = OK s
            /\ nonempty s = true
            /\ all_chars is_letter s = true
            /\ _letters_to_numbers s = OK n.
Proof.
  intros Hn. apply numbers_to_letters_rec_spec; [exact Hn|].
  pose proof (Z.log2_nonneg n). lia.
Qed.

(** ** Decimal digits *)

Lemma digits_loop_app (s t : string) (n : Z) :
  digits_loop (String.append s t) n = digits_loop t (digits_loop s n).
Proof.
  revert n. induction s as [|c s IH]; intros n; simpl; [reflexivity | apply IH].
Qed.

Lemma append_cons (c : ascii) (s t : string) :
  String.append (String c s) t = String c (String.append s t).
Proof. reflexivity. Qed.

Lemma append_snoc (s : string) (c : ascii) (t : string) :
  String.append (String.append s (str1 c)) t = String.append s (String c t).
Proof.
  induction s as [|d s IH]; [reflexivity|].
  rewrite !append_cons. f_equal. exact IH.
Qed.

Lemma digit_char (k : Z) :
  0 <= k < 10 -> is_digit (chr (48 + k)) = true /\ code (chr (48 + k)) - 48 = k.
Proof.
  intros Hk. unfold is_digit. rewrite code_chr by lia. lia.
Qed.

Lemma digits_rec_spec (fuel : nat) (n : Z) (acc : string) :
  0 <= n -> Z.log2 n <= Z.of_nat fuel ->
  exists d, digits_rec fuel n acc = String.append d acc
            /\ nonempty d = true
            /\ all_chars is_digit d = true
            /\ int_of_digits d = n.
Proof.
  revert n acc. induction fuel as [|f IH]; intros n acc Hn Hlog.
  all: unfold digits_rec; fold digits_rec.
  all: pose proof (Z.mod_pos_bound n 10 ltac:(lia)) as Hr.
  all: pose proof (Z.div_mod n 10 ltac:(lia)) as Hdm.
  all: destruct (digit_char (n mod 10) Hr) as [Hd Hc].
  all: destruct (Z.ltb_spec n 10) as [Hlt|Hge].
  all: try (exists (str1 (chr (48 + n mod 10))); repeat split;
            [simpl; now rewrite Hd
            |unfold int_of_digits; simpl; rewrite Hc, Z.mod_small; lia]).
  - exfalso.
    assert (Hbig : 2 ^ 1 <= n) by lia.
    apply Z.log2_le_pow2 in Hbig; lia.
  - assert (Hq : 0 < n / 10) by (apply Z.div_str_pos; lia).
    destruct (IH (n / 10) (String (chr (48 + n mod 10)) acc) ltac:(lia))
      as (d & Hrec & Hne & Hall & Hval).
    { eapply log2_quotient with (n := n); lia. }
    exists (String.append d (str1 (chr (48 + n mod 10)))). repeat split.
    + rewrite Hrec. symmetry. apply append_snoc.
    + now apply nonempty_app_l.
    + rewrite all_chars_app, Hall. simpl. now rewrite Hd.
    + unfold int_of_digits in *. rewrite digits_loop_app, Hval. simpl. lia.
Qed.

Lemma append_empty_r (s : string) : String.append s EmptyString = s.
Proof.
  induction s as [|c s IH]; [reflexivity|].
  rewrite append_cons. f_equal. exact IH.
Qed.

Lemma str_of_int_spec (n : Z) :
  0 < n ->
  nonempty (str_of_int n) = true
  /\ all_chars is_digit (str_of_int n) = true
  /\ int_of_digits (str_of_int n) = n.
Proof.
  intros Hn. unfold str_of_int.
  destruct (Z.ltb_spec n 0) as [|_]; [lia|].
  unfold str_of_nonneg.
  destruct (digits_rec_spec (Z.to_nat (Z.log2 n)) n EmptyString ltac:(lia))
    as (d & Hd & Hne & Hall & Hval).
  { pose proof (Z.log2_nonneg n). lia. }
  rewrite Hd, append_empty_r. auto.
Qed.

Lemma digits_loop_bound (s : string) (n : Z) :
  0 <= n -> all_chars is_digit s = true ->
  0 <= digits_loop s n < (n + 1) * 10 ^ Z.of_nat (String.length s).
Proof.
  revert n. induction s as [|c s IH]; intros n Hn Hall.
  - simpl. lia.
  - simpl in Hall. apply andb_prop in Hall as [Hc Hall].
    unfold is_digit in Hc. cbn [digits_loop String.length].
    specialize (IH (n * 10 + (code c - 48)) ltac:(lia) Hall).
    rewrite Nat2Z.inj_succ, Z.pow_succ_r by lia.
    assert (0 < 10 ^ Z.of_nat (String.length s)) by (apply Z.pow_pos_nonneg; lia).
    nia.
Qed.

Lemma int_of_digits_bound (s : string) :
  all_chars is_digit s = true ->
  0 <= int_of_digits s < 10 ^ Z.of_nat (String.length s).
Proof.
  intros Hall. pose proof (digits_loop_bound s 0 ltac:(lia) Hall). unfold int_of_digits. lia.
Qed.

Lemma digits_rec_length (fuel : nat) (n : Z) (acc : string) (k : nat) :
  0 <= n -> Z.log2 n <= Z.of_nat fuel -> (0 < k)%nat -> n < 10 ^ Z.of_nat k ->
  (String.length (digits_rec fuel n acc) <= k + String.length acc)%nat.
Proof.
  revert n acc k. induction fuel as [|f IH]; intros n acc k Hn Hlog Hk Hlt.
  all: unfold digits_rec; fold digits_rec.
  all: destruct (Z.ltb_spec n 10) as [Hsmall|Hge]; [simpl; lia|].
  - exfalso.
    assert (Hbig : 2 ^ 1 <= n) by lia.
    apply Z.log2_le_pow2 in Hbig; lia.
  - destruct k as [|[|k]]; [lia | simpl in Hlt; lia |].
    assert (Hq : n / 10 < 10 ^ Z.of_nat (S k)).
    { apply Z.div_lt_upper_bound; [lia|].
      rewrite (Nat2Z.inj_succ (S k)), Z.pow_succ_r in Hlt by lia. exact Hlt. }
    assert (Hq0 : 0 < n / 10) by (apply Z.div_str_pos; lia).
    assert (Hlog' : Z.log2 (n / 10) <= Z.of_nat f).
    { pose proof (Z.mod_pos_bound n 10 ltac:(lia)).
      pose proof (Z.div_mod n 10 ltac:(lia)).
      eapply log2_quotient with (n := n); lia. }
    assert (Hn' : 0 <= n / 10) by lia.
    assert (Hk' : (0 < S k)%nat) by lia.
    pose proof (IH (n / 10) (String (chr (48 + n mod 10)) acc) (S k)
                  Hn' Hlog' Hk' Hq) as Hrec.
    cbn [String.length] in Hrec. lia.
Qed.

Lemma str_of_int_length (n : Z) (k : nat) :
  0 < n -> (0 < k)%nat -> n < 10 ^ Z.of_nat k ->
  (String.length (str_of_int n) <= k)%nat.
Proof.
  intros Hn Hk Hlt. unfold str_of_int.
  destruct (Z.ltb_spec n 0) as [|_]; [lia|].
  unfold str_of_nonneg.
  pose proof (digits_rec_length (Z.to_nat (Z.log2 n)) n EmptyString k ltac:(lia)) as H.
  simpl in H. rewrite Nat.add_0_r in H. apply H; [|exact Hk | exact Hlt].
  pose proof (Z.log2_nonneg n). lia.
Qed.

Lemma py_int_of_str_of_int (r : Z) :
  0 < r -> r < 10 ^ int_max_str_digits -> py_int (str_of_int r) = OK r.
Proof.
  intros Hr Hlt. destruct (str_of_int_spec r Hr) as (_ & _ & Dback).
  pose proof (str_of_int_length r (Z.to_nat int_max_str_digits) Hr) as Hlen.
  unfold py_int.
  destruct (Z.ltb_spec int_max_str_digits (Z.of_nat (String.length (str_of_int r))))
    as [Hbig|_]; [|now rewrite Dback].
  exfalso. unfold int_max_str_digits in *.
  assert (String.length (str_of_int r) <= Z.to_nat 4300)%nat; [|lia].
  apply Hlen; [lia|]. now rewrite Z2Nat.id by lia.
Qed.

Lemma span_all_chars (p : ascii -> bool) (s : string) :
  all_chars p (fst (span p s)) = true.
Proof.
  induction s as [|c s IH]; [reflexivity|]. simpl.
  destruct (p c) eqn:Hc; [|reflexivity].
  destruct (span p s). simpl in *. now rewrite Hc.
Qed.

(** ** Matching an address *)

Lemma span_all (p : ascii -> bool) (s t : string) :
  all_chars p s = true ->
  match t with EmptyString => True | String c _ => p c = false end ->
  span p (String.append s t) = (s, t).
Proof.
  intros Hs Ht. induction s as [|c s IH]; simpl in *.
  - destruct t as [|c t]; simpl; [reflexivity | now rewrite Ht].
  - apply andb_prop in Hs as [Hc Hs]. rewrite Hc, (IH Hs). reflexivity.
Qed.

Lemma A1_NOTATION_match_app (letters numbers : string) :
  nonempty letters = true -> all_chars is_letter letters = true ->
  nonempty numbers = true -> all_chars is_digit numbers = true ->
  A1_NOTATION_match (String.append letters numbers) = Some (letters, numbers).
Proof.
  intros Hl1 Hl2 Hn1 Hn2. unfold A1_NOTATION_match.
  rewrite (span_all is_letter letters numbers Hl2).
  - pose proof (span_all is_digit numbers EmptyString Hn2 I) as Hsp.
    rewrite append_empty_r in Hsp. rewrite Hsp, Hl1, Hn1. reflexivity.
  - destruct numbers as [|c t]; [exact I|].
    simpl in Hn2. apply andb_prop in Hn2 as [Hc _].
    now apply digit_not_letter.
Qed.

Lemma a1_to_index_col_pos (s : string) (c r : Z) :
  a1_to_index (VStr s) = OK (c, r) -> 0 < c.
Proof.
  unfold a1_to_index, A1_NOTATION_match.
  destruct (span is_letter s) as [letters rest].
  destruct (span is_digit rest) as [numbers tail].
  destruct (nonempty letters) eqn:Hne; simpl; [|discriminate].
  destruct (nonempty numbers && _); [|discriminate].
  destruct (_letters_to_numbers letters) as [col|e] eqn:Hcol; simpl; [|discriminate].
  destruct (py_int numbers) as [row|e]; simpl; [|discriminate].
  intros [= <- _]. unfold _letters_to_numbers in Hcol.
  eapply letters_loop_pos; [exact Hcol | lia | exact Hne].
Qed.

Lemma a1_to_index_row_bound (s : string) (c r : Z) :
  a1_to_index (VStr s) = OK (c, r) -> 0 <= r < 10 ^ int_max_str_digits.
Proof.
  unfold a1_to_index, A1_NOTATION_match.
  destruct (span is_letter s) as [letters rest].
  pose proof (span_all_chars is_digit rest) as Hall.
  destruct (span is_digit rest) as [numbers tail]. simpl in Hall.
  destruct (nonempty letters && nonempty numbers && _); [|discriminate].
  destruct (_letters_to_numbers letters) as [col|e]; simpl; [|discriminate].
  unfold py_int.
  destruct (Z.ltb_spec int_max_str_digits (Z.of_nat (String.length numbers)))
    as [|Hlen]; simpl; [discriminate|].
  intros [= _ <-]. pose proof (int_of_digits_bound numbers Hall) as Hb.
  split; [lia|]. eapply Z.lt_le_trans; [apply Hb|].
  apply Z.pow_le_mono_r; lia.
Qed.

(** ** Round trip of the codec *)

Lemma index_round_trip (c r : Z) :
  0 < c -> 0 < r -> r < 10 ^ int_max_str_digits ->
  exists s, index_to_a1 (c, r) = OK s /\ a1_to_index (VStr s) = OK (c, r).
Proof.
  intros Hc Hr Hlim.
  destruct (numbers_to_letters_spec c Hc) as (letters & Hl & Hne & Hall & Hback).
  destruct (str_of_int_spec r Hr) as (Dne & Dall & Dback).
  exists (String.append letters (str_of_int r)). split.
  - unfold index_to_a1, valid_index. simpl.
    destruct (Z.ltb_spec 0 c); [|lia]. destruct (Z.ltb_spec 0 r); [|lia].
    simpl. rewrite Hl. reflexivity.
  - unfold a1_to_index.
    rewrite (A1_NOTATION_match_app letters (str_of_int r) Hne Hall Dne Dall).
    rewrite Hback. simpl. rewrite (py_int_of_str_of_int r Hr Hlim). reflexivity.
Qed.

Lemma address_round_trip (s : string) (c r : Z) :
  a1_to_index (VStr s) = OK (c, r) -> 0 < r ->
  exists s', index_to_a1 (c, r) = OK s' /\ a1_to_index (VStr s') = OK (c, r).
Proof.
  intros Hs Hr. apply index_round_trip; [|exact Hr|].
  - eapply a1_to_index_col_pos, Hs.
  - eapply a1_to_index_row_bound, Hs.
Qed.

(** ** Lists *)

Lemma unsnoc_app {A : Type} (l : list A) (x : A) : unsnoc (l ++ [x]) = Some (l, x).
Proof.
  induction l as [|y l IH]; simpl; [reflexivity|]. now rewrite IH.
Qed.

(** ** Stack *)

Lemma popn_two (st st' : Stack.t) (items : list value) :
  Stack.popn 2 st = OK (items, st') ->
  exists item1 item2,
    items = [item1; item2]
    /\ Stack.values st = Stack.values st' ++ [item1; item2]
    /\ Stack.frames st' = Stack.frames st.
Proof.
  unfold Stack.popn.
  destruct (match unsnoc (Stack.frames st) with
            | Some (_, top) => _ | None => OK tt end) as [[]|e]; simpl; [|discriminate].
  unfold py_assert. destruct (Z.leb_spec 2 (len (Stack.values st))) as [Hlen|]; simpl;
    [|discriminate].
  assert (Hstart : slice_start (Stack.values st) (-2) = (length (Stack.values st) - 2)%nat).
  { unfold slice_start, len in *. simpl. lia. }
  change (- (2)) with (-2). rewrite Hstart. unfold len in Hlen.
  intros [= <- <-]. cbn [Stack.values Stack.frames].
  set (vs := Stack.values st) in *.
  pose proof (take_drop (length vs - 2) vs) as Htd.
  assert (Hl : length (drop (length vs - 2) vs) = 2%nat) by (rewrite length_drop; lia).
  destruct (drop (length vs - 2) vs) as [|a [|b [|c t]]]; simpl in Hl; try lia.
  exists a, b. auto.
Qed.

Lemma peek_single_frame (vs : list value) (f : num) (n : Z) :
  Stack.peek n (Stack.mk vs [f]) = Raise IndexError.
Proof. reflexivity. Qed.

(** ** Arithmetic opcodes *)

Lemma arithmetic_spec (op : float -> float -> result float) (ip0 : Z * Z)
    (s : Interpreter) (items : list value) (st' : Stack.t) :
  Stack.popn 2 (stack s) = OK (items, st') ->
  exists item1 item2,
    items = [item1; item2]
    /\ Stack.values (stack s) = Stack.values st' ++ [item1; item2]
    /\ arithmetic op ip0 s = arithmetic_result op item1 item2 st' s.
Proof.
  intros Hpop.
  destruct (popn_two _ _ _ Hpop) as (item1 & item2 & -> & Hvals & _).
  exists item1, item2. repeat split; [exact Hvals|].
  unfold arithmetic, _binary_arithmetic_check, popn, mbind, M_bind.
  rewrite Hpop. unfold arithmetic_result.
  destruct item1 as [x| |], item2 as [y| |]; try reflexivity.
  simpl. unfold lift. destruct (op x y); reflexivity.
Qed.

Lemma arithmetic_on_int (op : float -> float -> result float) (ip0 : Z * Z)
    (s : Interpreter) (items : list value) (st' : Stack.t) (r : Z) :
  Stack.popn 2 (stack s) = OK (items, st') ->
  In (VInt r) items ->
  arithmetic op ip0 s = Fail ArithmeticError (set_stack st' s).
Proof.
  intros Hpop Hin.
  destruct (arithmetic_spec op ip0 s items st' Hpop) as (a & b & -> & _ & ->).
  unfold arithmetic_result.
  destruct Hin as [->|[->|[]]]; [reflexivity|].
  destruct a; reflexivity.
Qed.

(** ** Reading arguments *)

Lemma argument_valid (index : Z * Z) (n : Z) :
  valid_index index = true -> argument index n = OK (fst index + n, snd index).
Proof. intros H. unfold argument. now rewrite H. Qed.

Lemma read_argument_eq (ip0 : Z * Z) (n : Z) (default : value) (s : Interpreter) :
  read_argument ip0 n default s
  = match argument ip0 n with
    | OK index => Done (Sheet.read (sheet s) index default) s
    | Raise e => Fail e s
    end.
Proof.
  unfold read_argument, mbind, M_bind, lift, read, gets.
  destruct (argument ip0 n); reflexivity.
Qed.

Lemma address_argument_eq (ip0 : Z * Z) (s : Interpreter) :
  valid_index ip0 = true ->
  address_argument ip0 s
  = match a1_to_index (Sheet.read (sheet s) (fst ip0 + 1, snd ip0) (VStr "")) with
    | OK address => Done address s
    | Raise e => Fail e s
    end.
Proof.
  intros Hv. unfold address_argument, mbind, M_bind.
  rewrite read_argument_eq, (argument_valid _ _ Hv). reflexivity.
Qed.

(** ** One turn of the loop *)

Lemma run_turn_halts (s : Interpreter) :
  (let opcode := Sheet.read (sheet s) (ip s) (VStr "HALT") in
   py_eq opcode (VStr "HALT") || negb (is_str opcode) = true) ->
  run_turn s = Return s.
Proof. unfold run_turn. simpl. now intros ->. Qed.

Lemma run_turn_dispatch (s : Interpreter) (opcode : string) :
  Sheet.read (sheet s) (ip s) (VStr "HALT") = VStr opcode ->
  opcode <> "HALT"%string ->
  run_turn s
  = match getattr (String.append "do_" (upper opcode)) with
    | Raise e => Raised e s
    | OK method =>
        match method (ip s) s with
        | Done jumped s' => Continue (if jumped then s' else next_row s')
        | Fail e s' => Raised e s'
        end
    end.
Proof.
  intros Hread Hne. unfold run_turn. rewrite Hread. simpl.
  destruct (String.eqb_spec opcode "HALT") as [|_]; [contradiction|].
  simpl. destruct (getattr _); reflexivity.
Qed.

Lemma upper_not_HALT (opcode name : string) :
  upper opcode = name -> name <> "HALT"%string -> opcode <> "HALT"%string.
Proof. intros <- Hne ->. now apply Hne. Qed.

Lemma interpret_HALT : Sheet.interpret_value (VStr "HALT") = VStr "HALT".
Proof. vm_compute. reflexivity. Qed.

Lemma read_unset (sh : Sheet.t) (index : Z * Z) (default : value) :
  Sheet.values sh !! index = None ->
  Sheet.read sh index default = Sheet.interpret_value default.
Proof. intros H. unfold Sheet.read. now rewrite H. Qed.

(** ** CALL and RETURN *)

Lemma push_frame_spec (args : num) (st st' : Stack.t) :
  Stack.push_frame args st = OK st' ->
  exists boundary,
    int_sub_num (len (Stack.values st)) (if num_truthy args then args else NInt 0)
      = OK boundary
    /\ st' = Stack.mk (Stack.values st) (Stack.frames st ++ [boundary]).
Proof.
  unfold Stack.push_frame.
  destruct (int_sub_num _ _) as [b|e]; simpl; [|discriminate].
  destruct (match unsnoc (Stack.frames st) with Some _ => _ | None => _ end);
    simpl; [|discriminate].
  intros [= <-]. eauto.
Qed.




(** ** Every letter is in the alphabet *)

Lemma letter_found_all : forallb letter_found (map Z.of_nat (seq 0 256)) = true.
Proof. vm_compute. reflexivity. Qed.

Lemma ALPHABET_index_letter (c : ascii) :
  is_letter c = true ->
  exists k, ALPHABET_index (upper_char c) = OK k /\ 0 <= k < 26.
Proof.
  intros Hc.
  assert (Hok : letter_found (code c) = true).
  { pose proof letter_found_all as H. rewrite forallb_forall in H. apply H.
    pose proof (code_range c). apply in_map_iff. exists (Z.to_nat (code c)).
    split; [lia|]. apply in_seq. lia. }
  unfold letter_found in Hok. rewrite chr_code, Hc in Hok. simpl in Hok.
  destruct (ALPHABET_index (upper_char c)) as [k|]; [|discriminate].
  exists k. split; [reflexivity | lia].
Qed.

Lemma letters_loop_total (s : string) (n : Z) :
  all_chars is_letter s = true -> exists m, letters_loop s n = OK m.
Proof.
  revert n. induction s as [|c s IH]; intros n; simpl; [eauto|].
  intros H. apply andb_prop in H as [Hc Hs].
  destruct (ALPHABET_index_letter c Hc) as (k & -> & _). simpl. now apply IH.
Qed.

(** ** Further helper lemmas *)

Lemma read_write (sh : Sheet.t) (index : Z * Z) (v default : value) :
  Sheet.read (Sheet.write sh index v) index default
  = Sheet.interpret_value (Sheet.interpret_value v).
Proof.
  unfold Sheet.read, Sheet.write. simpl. now rewrite lookup_insert_eq.
Qed.

Lemma arithmetic_dispatch (name : string) (op : float -> float -> result float) :
  In (name, op) arithmetic_opcodes ->
  getattr (String.append "do_" name) = OK (arithmetic op).
Proof.
  unfold arithmetic_opcodes. simpl.
  intros [H|[H|[H|[H|[H|[H|[]]]]]]]; injection H as <- <-; reflexivity.
Qed.


Lemma compare_handler_resolved (cmp : value -> value -> result bool) (ip0 : Z * Z)
    (s : Interpreter) (address : Z * Z) (top : value) (c : bool) :
  valid_index ip0 = true ->
  a1_to_index (Sheet.read (sheet s) (fst ip0 + 1, snd ip0) (VStr "")) = OK address ->
  Stack.peek 1 (stack s) = OK top ->
  cmp top (Sheet.read (sheet s) address (VStr "")) = OK c ->
  compare_handler cmp ip0 s = Done false (set_cond c s).
Proof.
  intros Hv Ha Hp Hc. unfold compare_handler, mbind, M_bind, try_except.
  rewrite read_argument_eq, (argument_valid _ _ Hv).
  unfold lift, read, gets, peek, modify. rewrite Ha. simpl. rewrite Hp, Hc. reflexivity.
Qed.

Lemma compare_handler_fallback (cmp : value -> value -> result bool) (ip0 : Z * Z)
    (s : Interpreter) (e : exn) (second top : value) (c : bool) :
  valid_index ip0 = true ->
  a1_to_index (Sheet.read (sheet s) (fst ip0 + 1, snd ip0) (VStr "")) = Raise e ->
  Stack.peek 2 (stack s) = OK second ->
  Stack.peek 1 (stack s) = OK top ->
  cmp second top = OK c ->
  compare_handler cmp ip0 s = Done false (set_cond c s).
Proof.
  intros Hv Ha Hp2 Hp1 Hc. unfold compare_handler, mbind, M_bind, try_except.
  rewrite read_argument_eq, (argument_valid _ _ Hv).
  unfold lift, read, gets, peek, modify. rewrite Ha. simpl. rewrite Hp2, Hp1, Hc.
  reflexivity.
Qed.

(** When the comparison itself raises, the bare [except] runs the fallback
    as well. *)
Lemma compare_handler_comparison_raises (cmp : value -> value -> result bool)
    (ip0 : Z * Z) (s : Interpreter) (address : Z * Z) (second top : value)
    (e : exn) (c : bool) :
  valid_index ip0 = true ->
  a1_to_index (Sheet.read (sheet s) (fst ip0 + 1, snd ip0) (VStr "")) = OK address ->
  Stack.peek 2 (stack s) = OK second ->
  Stack.peek 1 (stack s) = OK top ->
  cmp top (Sheet.read (sheet s) address (VStr "")) = Raise e ->
  cmp second top = OK c ->
  compare_handler cmp ip0 s = Done false (set_cond c s).
Proof.
  intros Hv Ha Hp2 Hp1 He Hc. unfold compare_handler, mbind, M_bind, try_except.
  rewrite read_argument_eq, (argument_valid _ _ Hv).
  unfold lift, read, gets, peek, modify. rewrite Ha. simpl. rewrite Hp1, He, Hp2.
  simpl. rewrite Hp1, Hc. reflexivity.
Qed.

Lemma resolution_failure_propagates (ip0 : Z * Z) (s : Interpreter) (e : exn) :
  valid_index ip0 = true ->
  a1_to_index (Sheet.read (sheet s) (fst ip0 + 1, snd ip0) (VStr "")) = Raise e ->
  do_LOAD_CELL ip0 s = Fail e s
  /\ do_STORE_CELL ip0 s = Fail e s
  /\ do_JUMP ip0 s = Fail e s
  /\ do_CALL ip0 s = Fail e s.
Proof.
  intros Hv Ha.
  unfold do_LOAD_CELL, do_STORE_CELL, do_JUMP, do_CALL, mbind, M_bind.
  rewrite (address_argument_eq _ _ Hv), Ha. auto.
Qed.

Lemma random_randint_stack (a : Z) (b : option Z) (s s1 : Interpreter) (r : Z) :
  random_randint a b s = Done r s1 -> stack s1 = stack s.
Proof.
  unfold random_randint, raise, mbind, M_bind, next_draw, mret, M_ret.
  destruct b as [b|]; [|discriminate].
  destruct (b <? a); [discriminate|].
  now intros [= _ <-].
Qed.

Lemma do_RANDINT_pushes_int (ip0 : Z * Z) (s s1 : Interpreter) (jumped : bool) :
  do_RANDINT ip0 s = Done jumped s1 ->
  exists r, stack s1 = Stack.push (VInt r) (stack s).
Proof.
  unfold do_RANDINT, mbind, M_bind.
  rewrite !read_argument_eq.
  destruct (argument ip0 1) as [i1|]; [|discriminate].
  rewrite !read_argument_eq.
  destruct (argument ip0 2) as [i2|]; [|discriminate].
  destruct (Sheet.read (sheet s) i1 (VStr "")) as [m| |]; try discriminate.
  unfold lift. destruct (int_of_float m) as [m'|]; [|discriminate].
  destruct (optional_bound (Sheet.read (sheet s) i2 (VStr ""))) as [n'|]; [|discriminate].
  destruct (if negb (m' =? 0) && negb (bound_truthy n') then (1, Some m') else (m', n'))
    as [a b].
  destruct (random_randint a b s) as [r s2|] eqn:Hr; [|discriminate].
  apply random_randint_stack in Hr.
  unfold push, modify, mret, M_ret. intros [= _ <-].
  exists r. simpl. now rewrite Hr.
Qed.

(** The examples of the value interpretation that the code meets. *)
Lemma value_interpretation_examples :
  (exists x, py_float "3.14" = OK x
             /\ py_repr x = "3.14"%string
             /\ Sheet.read (Sheet.write Sheet.empty (1, 1) (VStr "3.14")) (1, 1) (VStr "")
                = VFloat x)
  /\ Sheet.read (Sheet.write Sheet.empty (1, 1) (VStr "hello")) (1, 1) (VStr "")
     = VStr "hello"
  /\ Sheet.read (Sheet.write Sheet.empty (1, 1) (VInt 5)) (1, 1) (VStr "") = VFloat 5.
Proof.
  split; [|split]; [|vm_compute; reflexivity | vm_compute; reflexivity].
  eexists. split; [vm_compute; reflexivity|]. split; vm_compute; reflexivity.
Qed.

(** * Further properties of the fetch step and of the stack *)

(** X2.  On a stack without frames [peek(n)] returns the [n]-th value from
    the top: the value with [n - 1] values above it. *)
Theorem peek_without_frames (below above : list value) (v : value) (n : Z) :
  len above = n - 1 ->
  Stack.peek n (Stack.mk (below ++ v :: above) []) = OK v.
Proof.
  intros Hn. unfold Stack.peek, len in *. cbn [Stack.values Stack.frames].
  rewrite length_app. cbn [length mbind result_bind].
  destruct (Z.ltb_spec (Z.of_nat (length below + S (length above)) - n) 0) as [|_];
    [lia|].
  unfold list_get.
  replace (Z.to_nat (Z.of_nat (length below + S (length above)) - n))
    with (length below + 0)%nat by lia.
  rewrite lookup_app_r by lia.
  replace (length below + 0 - length below)%nat with O by lia. reflexivity.
Qed.

Lemma peek_without_frames_witness :
  Stack.peek 2 (Stack.mk [VFloat 1; VFloat 2; VFloat 3] []) = OK (VFloat 2).
Proof.
  apply (peek_without_frames [VFloat 1] [VFloat 3] (VFloat 2) 2). reflexivity.
Defined.

(** X1.  In the fetch step [run] stops normally, without raising, whenever
    the cell at the instruction pointer is unset, reads as the text HALT in
    upper case, or reads as a value that is not a text (a number); any other
    text is upper-cased and looked up as a handler name, so handlers are
    found in every letter case. *)
Theorem fetch_stops_normally (s : Interpreter) :
  (Sheet.values (sheet s) !! ip s = None
   \/ Sheet.read (sheet s) (ip s) (VStr "HALT") = VStr "HALT"
   \/ is_str (Sheet.read (sheet s) (ip s) (VStr "HALT")) = false ->
   forall fuel, run (S fuel) s = Return s)
  /\ (forall opcode : string,
        Sheet.read (sheet s) (ip s) (VStr "HALT") = VStr opcode ->
        opcode <> "HALT"%string ->
        run_turn s
        = match getattr (String.append "do_" (upper opcode)) with
          | Raise e => Raised e s
          | OK method =>
              match method (ip s) s with
              | Done jumped s' => Continue (if jumped then s' else next_row s')
              | Fail e s' => Raised e s'
              end
          end).
Proof.
  split; [|apply run_turn_dispatch].
  intros H fuel.
  assert (Hturn : run_turn s = Return s).
  { apply run_turn_halts. cbv zeta.
    destruct H as [H|[H|H]].
    - rewrite (read_unset _ _ _ H), interpret_HALT. reflexivity.
    - rewrite H. reflexivity.
    - rewrite H. apply orb_true_r. }
  simpl. now rewrite Hturn.
Qed.

Lemma fetch_stops_normally_witness :
  run 1 (machine [] (1, 1) Stack.empty) = Return (machine [] (1, 1) Stack.empty)
  /\ run 1 (machine [["HALT"]]%string (1, 1) Stack.empty)
     = Return (machine [["HALT"]]%string (1, 1) Stack.empty)
  /\ run 1 (machine [["5"]]%string (1, 1) Stack.empty)
     = Return (machine [["5"]]%string (1, 1) Stack.empty)
  /\ run_turn add_demo
     = Continue (next_row (set_stack (Stack.mk [VFloat 5] []) add_demo)).
Proof.
  split; [|split; [|split]].
  - apply (proj1 (fetch_stops_normally (machine [] (1, 1) Stack.empty))).
    left. vm_compute. reflexivity.
  - apply (proj1 (fetch_stops_normally (machine [["HALT"]]%string (1, 1) Stack.empty))).
    right. left. vm_compute. reflexivity.
  - apply (proj1 (fetch_stops_normally (machine [["5"]]%string (1, 1) Stack.empty))).
    right. right. vm_compute. reflexivity.
  - rewrite (proj2 (fetch_stops_normally add_demo) "add"%string);
      [vm_compute; reflexivity | vm_compute; reflexivity | discriminate].
Defined.

(** * Further properties of the stack, the sheet and the opcodes *)

(** ** More on lists and on the stack *)

Lemma unsnoc_nil_iff {A : Type} (l : list A) : unsnoc l = None <-> l = [].
Proof.
  split; [|now intros ->].
  destruct l as [|y l]; simpl; [reflexivity|].
  destruct (unsnoc l) as [[i z]|]; discriminate.
Qed.

Lemma unsnoc_Some {A : Type} (l i : list A) (x : A) :
  unsnoc l = Some (i, x) <-> l = i ++ [x].
Proof.
  split; [|intros ->; apply unsnoc_app].
  revert i. induction l as [|y l IH]; intros i; simpl; [discriminate|].
  destruct (unsnoc l) as [[i' z]|] eqn:Hl.
  - intros [= <- <-]. simpl. f_equal. now apply IH.
  - apply unsnoc_nil_iff in Hl as ->. now intros [= <- <-].
Qed.

Lemma num_le_int (a b : Z) : num_le (NInt a) (NInt b) = (a <=? b).
Proof.
  unfold num_le, num_compare. destruct (Z.leb_spec a b) as [H|H].
  - destruct (Z.compare_spec a b); try reflexivity; lia.
  - destruct (Z.compare_spec a b); try reflexivity; lia.
Qed.

Lemma num_gt_int (a b : Z) : num_gt (NInt a) (NInt b) = (b <? a).
Proof.
  unfold num_gt, num_compare. destruct (Z.ltb_spec b a) as [H|H].
  - destruct (Z.compare_spec a b); try reflexivity; lia.
  - destruct (Z.compare_spec a b); try reflexivity; lia.
Qed.

Lemma num_ge_int (a b : Z) : num_ge (NInt a) (NInt b) = (b <=? a).
Proof.
  unfold num_ge, num_compare. destruct (Z.leb_spec b a) as [H|H].
  - destruct (Z.compare_spec a b); try reflexivity; lia.
  - destruct (Z.compare_spec a b); try reflexivity; lia.
Qed.

Lemma len_app {A : Type} (l k : list A) : len (l ++ k) = len l + len k.
Proof. unfold len. rewrite length_app. lia. Qed.

Lemma len_nonneg {A : Type} (l : list A) : 0 <= len l.
Proof. unfold len. lia. Qed.

Lemma pop_inv (st st' : Stack.t) (v : value) :
  Stack.pop st = OK (v, st') ->
  Stack.values st = Stack.values st' ++ [v] /\ Stack.frames st' = Stack.frames st.
Proof.
  unfold Stack.pop.
  destruct (match unsnoc (Stack.frames st) with Some _ => _ | None => _ end);
    simpl; [|discriminate].
  destruct (unsnoc (Stack.values st)) as [[rest x]|] eqn:Hv; [|discriminate].
  intros [= <- <-]. split; [now apply unsnoc_Some | reflexivity].
Qed.

(** X3.  When [pop] returns a value, that value was the last of [values] and
    is removed from it, the frames are untouched, the boundary of the
    innermost frame (when it is an integer) lay strictly below the depth, and
    pushing the value back and popping again returns the same value and
    stack. *)
Theorem pop_takes_the_top (st st' : Stack.t) (v : value) :
  Stack.pop st = OK (v, st') ->
  Stack.values st = Stack.values st' ++ [v]
  /\ Stack.frames st' = Stack.frames st
  /\ (forall fs b, Stack.frames st = fs ++ [NInt b] -> b < len (Stack.values st))
  /\ Stack.pop (Stack.push v st') = OK (v, st').
Proof.
  intros Hpop. destruct (pop_inv _ _ _ Hpop) as [Hv Hf].
  split; [exact Hv|]. split; [exact Hf|]. split.
  - intros fs b Hfs. unfold Stack.pop in Hpop. rewrite Hfs, unsnoc_app in Hpop.
    rewrite num_le_int in Hpop.
    destruct (Z.leb_spec (len (Stack.values st)) b); [discriminate | lia].
  - assert (Hst : Stack.push v st' = st).
    { unfold Stack.push. rewrite <- Hv, Hf. now destruct st. }
    now rewrite Hst.
Qed.

Lemma pop_takes_the_top_witness :
  Stack.pop (Stack.mk [VFloat 1; VFloat 2] [NInt 1])
  = OK (VFloat 2, Stack.mk [VFloat 1] [NInt 1])
  /\ (forall fs b, [NInt 1] = fs ++ [NInt b] -> b < 2)
  /\ Stack.pop (Stack.push (VFloat 2) (Stack.mk [VFloat 1] [NInt 1]))
     = OK (VFloat 2, Stack.mk [VFloat 1] [NInt 1]).
Proof.
  destruct (pop_takes_the_top (Stack.mk [VFloat 1; VFloat 2] [NInt 1])
              (Stack.mk [VFloat 1] [NInt 1]) (VFloat 2) eq_refl)
    as (_ & _ & Hb & Hback).
  split; [reflexivity|]. split; [exact Hb | exact Hback].
Defined.

(** X4.  [pop] raises [IndexError] on an empty stack and, under a frame
    whose integer boundary is not below the depth, on a stack that still has
    values; [IndexError] is the only exception it raises. *)
Theorem pop_underflow (st : Stack.t) :
  (Stack.values st = [] -> Stack.pop st = Raise IndexError)
  /\ (forall fs b, Stack.frames st = fs ++ [NInt b] -> len (Stack.values st) <= b ->
        Stack.pop st = Raise IndexError)
  /\ (forall e, Stack.pop st = Raise e -> e = IndexError).
Proof.
  split; [|split].
  - intros Hv. unfold Stack.pop. rewrite Hv.
    destruct (unsnoc (Stack.frames st)) as [[fs top]|]; [|reflexivity].
    destruct (num_le _ top); reflexivity.
  - intros fs b Hf Hlen. unfold Stack.pop. rewrite Hf, unsnoc_app, num_le_int.
    destruct (Z.leb_spec (len (Stack.values st)) b); [reflexivity | lia].
  - intros e. unfold Stack.pop.
    destruct (unsnoc (Stack.frames st)) as [[fs top]|].
    + destruct (num_le _ top); simpl; [now intros [= <-]|].
      destruct (unsnoc (Stack.values st)) as [[rest x]|]; [discriminate | now intros [= <-]].
    + simpl. destruct (unsnoc (Stack.values st)) as [[rest x]|];
        [discriminate | now intros [= <-]].
Qed.

Lemma pop_underflow_witness :
  Stack.pop Stack.empty = Raise IndexError
  /\ Stack.pop (Stack.mk [VFloat 1; VFloat 2] [NInt 2]) = Raise IndexError.
Proof.
  split.
  - apply (proj1 (pop_underflow Stack.empty)). reflexivity.
  - apply (proj1 (proj2 (pop_underflow (Stack.mk [VFloat 1; VFloat 2] [NInt 2]))) [] 2);
      [reflexivity | vm_compute; discriminate].
Defined.

(** ** [popn] *)

Lemma slice_start_last {A : Type} (l : list A) (n : Z) :
  0 < n <= len l -> slice_start l (- n) = (length l - Z.to_nat n)%nat.
Proof.
  intros Hn. unfold slice_start, len in *.
  destruct (Z.ltb_spec (- n) 0); lia.
Qed.

Lemma popn_bound (n : Z) (st st' : Stack.t) (items : list value) :
  Stack.popn n st = OK (items, st') -> 0 < n ->
  forall fs b, Stack.frames st = fs ++ [NInt b] -> b <= len (Stack.values st').
Proof.
  intros Hpop Hn fs b Hfs. unfold Stack.popn in Hpop.
  rewrite Hfs, unsnoc_app, num_gt_int in Hpop. unfold py_assert in Hpop.
  destruct (Z.ltb_spec b (len (Stack.values st) - n + 1)) as [Hgt|]; simpl in Hpop;
    [|discriminate].
  destruct (Z.leb_spec n (len (Stack.values st))) as [Hle|]; simpl in Hpop;
    [|discriminate].
  rewrite slice_start_last in Hpop by lia.
  injection Hpop as _ <-. cbn [Stack.values].
  unfold len in *. rewrite length_take. lia.
Qed.

Lemma popn_guard (n : Z) (st st' : Stack.t) (items : list value) :
  Stack.popn n st = OK (items, st') -> 0 < n ->
  forall fs top, Stack.frames st = fs ++ [top] ->
    num_gt (NInt (len (Stack.values st') + 1)) top = true.
Proof.
  intros Hpop Hn fs top Hfs. unfold Stack.popn in Hpop.
  rewrite Hfs, unsnoc_app in Hpop. unfold py_assert in Hpop.
  destruct (num_gt (NInt (len (Stack.values st) - n + 1)) top) eqn:Hgt;
    simpl in Hpop; [|discriminate].
  destruct (Z.leb_spec n (len (Stack.values st))) as [Hle|]; simpl in Hpop;
    [|discriminate].
  rewrite slice_start_last in Hpop by lia.
  injection Hpop as _ <-. cbn [Stack.values].
  replace (len (take (length (Stack.values st) - Z.to_nat n) (Stack.values st)) + 1)
    with (len (Stack.values st) - n + 1); [exact Hgt|].
  unfold len in *. rewrite length_take. lia.
Qed.

(** X5.  When [popn(n)] returns for a positive [n], it returns the last [n]
    values in their order on the stack and removes exactly them, and the
    frames are untouched.  The depth left plus one exceeds the boundary of
    the innermost frame, which is what the assertion of [popn] checks: an
    integer boundary is still reached by the values left, while a boundary
    that is a float (as CALL with a count makes it) can lie above them by
    less than one. *)
Theorem popn_takes_the_last (n : Z) (st st' : Stack.t) (items : list value) :
  Stack.popn n st = OK (items, st') -> 0 < n ->
  Stack.values st = Stack.values st' ++ items
  /\ len items = n
  /\ Stack.frames st' = Stack.frames st
  /\ (forall fs top, Stack.frames st = fs ++ [top] ->
        num_gt (NInt (len (Stack.values st') + 1)) top = true)
  /\ (forall fs b, Stack.frames st = fs ++ [NInt b] -> b <= len (Stack.values st')).
Proof.
  intros Hpop Hn. pose proof (popn_bound _ _ _ _ Hpop Hn) as Hb.
  pose proof (popn_guard _ _ _ _ Hpop Hn) as Hg.
  unfold Stack.popn in Hpop.
  destruct (match unsnoc (Stack.frames st) with Some _ => _ | None => _ end) as [[]|];
    simpl in Hpop; [|discriminate].
  unfold py_assert in Hpop.
  destruct (Z.leb_spec n (len (Stack.values st))) as [Hle|]; simpl in Hpop;
    [|discriminate].
  rewrite slice_start_last in Hpop by lia.
  injection Hpop as <- <-. cbn [Stack.values Stack.frames] in *.
  split; [now rewrite take_drop|]. split.
  { unfold len in *. rewrite length_drop. lia. }
  split; [reflexivity|]. split; [exact Hg | exact Hb].
Qed.

Lemma popn_takes_the_last_witness :
  (Stack.popn 2 (Stack.mk [VFloat 1; VFloat 2; VFloat 3] [NInt 1])
   = OK ([VFloat 2; VFloat 3], Stack.mk [VFloat 1] [NInt 1])
   /\ len [VFloat 2; VFloat 3] = 2
   /\ (forall fs b, [NInt 1] = fs ++ [NInt b] -> b <= 1))
  /\ (Stack.popn 2 (Stack.mk [VFloat 1; VFloat 2; VFloat 3] [NFloat 1.5])
      = OK ([VFloat 2; VFloat 3], Stack.mk [VFloat 1] [NFloat 1.5])
      /\ num_gt (NInt 2) (NFloat 1.5) = true
      /\ num_le (NFloat 1.5) (NInt 1) = false).
Proof.
  split.
  - destruct (popn_takes_the_last 2 (Stack.mk [VFloat 1; VFloat 2; VFloat 3] [NInt 1])
                (Stack.mk [VFloat 1] [NInt 1]) [VFloat 2; VFloat 3])
      as (_ & Hl & _ & _ & Hb); [vm_compute; reflexivity | lia |].
    split; [vm_compute; reflexivity|]. split; [exact Hl | exact Hb].
  - destruct (popn_takes_the_last 2
                (Stack.mk [VFloat 1; VFloat 2; VFloat 3] [NFloat 1.5])
                (Stack.mk [VFloat 1] [NFloat 1.5]) [VFloat 2; VFloat 3])
      as (_ & _ & _ & Hg & _); [vm_compute; reflexivity | lia |].
    split; [vm_compute; reflexivity|].
    split; [exact (Hg [] (NFloat 1.5) eq_refl) | vm_compute; reflexivity].
Defined.

(** X6.  On a stack whose innermost frame boundary is an integer (or that
    has no frame), [popn(2)] returns [[a; b]] exactly when two [pop]s in a
    row return [b] and then [a], and both ways leave the same stack. *)
Theorem popn_two_is_two_pops (st st' : Stack.t) (a b : value) :
  (Stack.frames st = [] \/ exists fs k, Stack.frames st = fs ++ [NInt k]) ->
  Stack.popn 2 st = OK ([a; b], st')
  <-> exists st1, Stack.pop st = OK (b, st1) /\ Stack.pop st1 = OK (a, st').
Proof.
  intros Hfr. split.
  - intros Hpop.
    pose proof (popn_bound 2 st st' [a; b] Hpop ltac:(lia)) as Hb.
    destruct (popn_two _ _ _ Hpop) as (a' & b' & Hab & Hv & Hf).
    injection Hab as <- <-.
    exists (Stack.mk (Stack.values st' ++ [a]) (Stack.frames st)). split.
    + unfold Stack.pop. rewrite Hv.
      replace (Stack.values st' ++ [a; b]) with ((Stack.values st' ++ [a]) ++ [b])
        by (now rewrite <- app_assoc).
      rewrite unsnoc_app.
      destruct Hfr as [->|(fs & k & Hfs)]; [reflexivity|].
      rewrite Hfs, unsnoc_app, num_le_int. specialize (Hb fs k Hfs).
      rewrite !len_app. change (len [a]) with 1. change (len [b]) with 1.
      destruct (Z.leb_spec (len (Stack.values st') + 1 + 1) k); [lia | reflexivity].
    + unfold Stack.pop. cbn [Stack.values Stack.frames]. rewrite unsnoc_app.
      destruct Hfr as [Hnil|(fs & k & Hfs)].
      * rewrite Hnil. simpl. rewrite <- Hnil, <- Hf. now destruct st'.
      * rewrite Hfs, unsnoc_app, num_le_int. specialize (Hb fs k Hfs).
        rewrite len_app. change (len [a]) with 1.
        destruct (Z.leb_spec (len (Stack.values st') + 1) k); [lia|].
        simpl. rewrite <- Hfs, <- Hf. now destruct st'.
  - intros (st1 & H1 & H2).
    destruct (pop_inv _ _ _ H1) as [Hv1 Hf1].
    destruct (pop_inv _ _ _ H2) as [Hv2 Hf2].
    assert (Hv : Stack.values st = Stack.values st' ++ [a; b])
      by (rewrite Hv1, Hv2, <- app_assoc; reflexivity).
    unfold Stack.popn.
    assert (Hlen : len (Stack.values st) = len (Stack.values st') + 2).
    { rewrite Hv, len_app. reflexivity. }
    assert (Hguard : match unsnoc (Stack.frames st) with
                     | Some (_, top) =>
                         py_assert (num_gt (NInt (len (Stack.values st) - 2 + 1)) top)
                     | None => OK tt
                     end = OK tt).
    { destruct Hfr as [->|(fs & k & Hfs)]; [reflexivity|].
      rewrite Hfs, unsnoc_app, num_gt_int.
      unfold Stack.pop in H2. rewrite Hf1, Hfs, unsnoc_app, num_le_int in H2.
      destruct (Z.leb_spec (len (Stack.values st1)) k); [discriminate|].
      rewrite Hv2, len_app in *. change (len [a]) with 1 in *.
      destruct (Z.ltb_spec k (len (Stack.values st) - 2 + 1)); [reflexivity | lia]. }
    rewrite Hguard. unfold py_assert.
    pose proof (len_nonneg (Stack.values st')).
    destruct (Z.leb_spec 2 (len (Stack.values st))); [|lia].
    cbv beta iota delta [mbind result_bind].
    rewrite (slice_start_last (Stack.values st) 2) by lia.
    assert (Hn : (length (Stack.values st) - Z.to_nat 2)%nat = length (Stack.values st')).
    { unfold len in Hlen. lia. }
    rewrite Hn, Hv, take_app_length, drop_app_length.
    rewrite <- Hf1, <- Hf2. now destruct st'.
Qed.

Lemma popn_two_is_two_pops_witness :
  exists st1,
    Stack.pop (Stack.mk [VFloat 1; VFloat 2; VFloat 3] [NInt 1]) = OK (VFloat 3, st1)
    /\ Stack.pop st1 = OK (VFloat 2, Stack.mk [VFloat 1] [NInt 1]).
Proof.
  apply (popn_two_is_two_pops (Stack.mk [VFloat 1; VFloat 2; VFloat 3] [NInt 1])).
  - right. exists [], 1. reflexivity.
  - vm_compute. reflexivity.
Defined.

(** X7.  [popn(0)] does not return an empty list: the slice [values[-0:]]
    is the whole list, so it returns every value and empties the stack, below
    the boundary of the innermost frame too. *)
Theorem popn_zero_empties_the_stack (vs : list value) (fs : list num) :
  (fs = [] \/ exists fs' b, fs = fs' ++ [NInt b] /\ b <= len vs) ->
  Stack.popn 0 (Stack.mk vs fs) = OK (vs, Stack.mk [] fs).
Proof.
  intros Hfs. unfold Stack.popn. cbn [Stack.values Stack.frames].
  assert (Hguard : match unsnoc fs with
                   | Some (_, top) => py_assert (num_gt (NInt (len vs - 0 + 1)) top)
                   | None => OK tt
                   end = OK tt).
  { destruct Hfs as [->|(fs' & b & -> & Hb)]; [reflexivity|].
    rewrite unsnoc_app, num_gt_int.
    destruct (Z.ltb_spec b (len vs - 0 + 1)); [reflexivity | lia]. }
  rewrite Hguard. simpl. unfold py_assert.
  pose proof (len_nonneg vs).
  destruct (Z.leb_spec 0 (len vs)); [|lia]. simpl.
  unfold slice_start. simpl. rewrite Z.min_l by lia. reflexivity.
Qed.

Lemma popn_zero_empties_the_stack_witness :
  Stack.popn 0 (Stack.mk [VFloat 1; VFloat 2] [NInt 2])
  = OK ([VFloat 1; VFloat 2], Stack.mk [] [NInt 2]).
Proof.
  apply popn_zero_empties_the_stack. right. exists [], 2.
  split; [reflexivity | vm_compute; discriminate].
Defined.

(** ** Frames *)

Lemma push_frame_int (k : Z) (st : Stack.t) :
  0 <= k ->
  Stack.push_frame (NInt k) st
  = (_ ← match unsnoc (Stack.frames st) with
         | Some (_, top) => py_assert (num_ge (NInt (len (Stack.values st) - k)) top)
         | None => py_assert (0 <=? len (Stack.values st) - k)
         end;
     OK (Stack.mk (Stack.values st)
           (Stack.frames st ++ [NInt (len (Stack.values st) - k)]))).
Proof.
  intros Hk. unfold Stack.push_frame, num_truthy.
  destruct (Z.eqb_spec k 0) as [->|Hne]; simpl.
  - rewrite num_ge_int. reflexivity.
  - rewrite num_ge_int. reflexivity.
Qed.

(** X8.  [push_frame(k)] on a stack with at least [k] values above the
    current boundary keeps the values, appends the boundary [len - k], and
    from then on [popn] hands out at most the [k] values above it:
    [popn(n)] raises [AssertionError] for [n > k] and returns the last [n]
    values for [0 < n <= k]; [pop_frame] then restores the stack. *)
Theorem frame_protects_what_lies_below (k : Z) (st : Stack.t) :
  0 <= k <= len (Stack.values st) ->
  (Stack.frames st = []
   \/ exists fs b, Stack.frames st = fs ++ [NInt b] /\ b <= len (Stack.values st) - k) ->
  exists st',
    Stack.push_frame (NInt k) st = OK st'
    /\ Stack.values st' = Stack.values st
    /\ Stack.frames st' = Stack.frames st ++ [NInt (len (Stack.values st) - k)]
    /\ (forall n, k < n -> Stack.popn n st' = Raise AssertionError)
    /\ (forall n, 0 < n <= k ->
          exists items st'', Stack.popn n st' = OK (items, st'')
                             /\ Stack.values st = Stack.values st'' ++ items)
    /\ Stack.pop_frame st' = st.
Proof.
  intros Hk Hfr.
  exists (Stack.mk (Stack.values st)
            (Stack.frames st ++ [NInt (len (Stack.values st) - k)])).
  split.
  { rewrite push_frame_int by lia.
    destruct Hfr as [->|(fs & b & -> & Hb)].
    - simpl. destruct (Z.leb_spec 0 (len (Stack.values st) - k)); [reflexivity | lia].
    - rewrite unsnoc_app, num_ge_int.
      destruct (Z.leb_spec b (len (Stack.values st) - k)); [reflexivity | lia]. }
  split; [reflexivity|]. split; [reflexivity|]. split; [|split].
  - intros n Hn. unfold Stack.popn. cbn [Stack.values Stack.frames].
    rewrite unsnoc_app, num_gt_int.
    destruct (Z.ltb_spec (len (Stack.values st) - k) (len (Stack.values st) - n + 1));
      [lia | reflexivity].
  - intros n Hn. unfold Stack.popn. cbn [Stack.values Stack.frames].
    rewrite unsnoc_app, num_gt_int.
    destruct (Z.ltb_spec (len (Stack.values st) - k) (len (Stack.values st) - n + 1));
      [|lia].
    unfold py_assert. destruct (Z.leb_spec n (len (Stack.values st))); [|lia].
    cbv beta iota delta [mbind result_bind].
    eexists _, _. split; [reflexivity|]. cbn [Stack.values].
    now rewrite take_drop.
  - unfold Stack.pop_frame. cbn [Stack.values Stack.frames].
    rewrite unsnoc_app. now destruct st.
Qed.

Lemma frame_protects_what_lies_below_witness :
  exists st',
    Stack.push_frame (NInt 1) (Stack.mk [VFloat 1; VFloat 2; VFloat 3] []) = OK st'
    /\ Stack.popn 2 st' = Raise AssertionError
    /\ Stack.pop_frame st' = Stack.mk [VFloat 1; VFloat 2; VFloat 3] [].
Proof.
  destruct (frame_protects_what_lies_below 1 (Stack.mk [VFloat 1; VFloat 2; VFloat 3] []))
    as (st' & Hp & _ & _ & Hfail & _ & Hback).
  - vm_compute. split; discriminate.
  - left. reflexivity.
  - exists st'. split; [exact Hp|]. split; [apply Hfail; lia | exact Hback].
Defined.

(** ** Loading rows *)

Lemma load_row_lookup (row : list string) (self : Sheet.t) (c0 r0 c r : Z) :
  Sheet.values (Sheet.load_row self row c0 r0) !! (c, r)
  = match (if r =? r0 then shifted_field row c0 c else None) with
    | Some f => Some (Sheet.interpret_value (VStr f))
    | None => Sheet.values self !! (c, r)
    end.
Proof.
  revert self c0. induction row as [|f row IH]; intros self c0; simpl.
  - unfold shifted_field. destruct (Z.eqb r r0); [|reflexivity].
    destruct (Z.leb c0 c); [rewrite lookup_nil|]; reflexivity.
  - rewrite IH. unfold shifted_field.
    destruct (Z.eqb_spec r r0) as [Heq|Hr]; [subst r0|].
    + destruct (Z.leb_spec (c0 + 1) c) as [H1|H1].
      * destruct (Z.leb_spec c0 c) as [_|]; [|lia].
        replace (Z.to_nat (c - c0)) with (S (Z.to_nat (c - (c0 + 1)))) by lia.
        simpl. destruct (row !! Z.to_nat (c - (c0 + 1))); [reflexivity|].
        unfold Sheet.write. simpl. rewrite lookup_insert_ne; [reflexivity|].
        intros [= ?]. lia.
      * destruct (Z.leb_spec c0 c) as [H0|H0].
        -- assert (c = c0) as -> by lia. rewrite Z.sub_diag. simpl.
           unfold Sheet.write. simpl. now rewrite lookup_insert_eq.
        -- unfold Sheet.write. simpl. rewrite lookup_insert_ne; [reflexivity|].
           intros [= ?]. lia.
    + unfold Sheet.write. simpl. rewrite lookup_insert_ne; [reflexivity|].
      intros [= ? ?]. lia.
Qed.

Lemma load_rows_lookup (rows : list (list string)) (self : Sheet.t) (r0 c r : Z) :
  Sheet.values (Sheet.load_rows self rows r0) !! (c, r)
  = match (if (1 <=? c) && (r0 <=? r) then
             match rows !! Z.to_nat (r - r0) with
             | Some row => row !! Z.to_nat (c - 1)
             | None => None
             end
           else None) with
    | Some f => Some (Sheet.interpret_value (VStr f))
    | None => Sheet.values self !! (c, r)
    end.
Proof.
  revert self r0. induction rows as [|row rows IH]; intros self r0; simpl.
  - destruct ((1 <=? c) && (r0 <=? r)); reflexivity.
  - rewrite IH, load_row_lookup. unfold shifted_field.
    destruct (Z.leb_spec 1 c) as [Hc|Hc]; simpl.
    + destruct (Z.leb_spec (r0 + 1) r) as [H1|H1].
      * destruct (Z.leb_spec r0 r) as [_|]; [|lia].
        replace (Z.to_nat (r - r0)) with (S (Z.to_nat (r - (r0 + 1)))) by lia.
        simpl. destruct (rows !! Z.to_nat (r - (r0 + 1))) as [row'|].
        -- destruct (row' !! Z.to_nat (c - 1)); [reflexivity|].
           destruct (Z.eqb_spec r r0); [lia | reflexivity].
        -- destruct (Z.eqb_spec r r0); [lia | reflexivity].
      * destruct (Z.eqb_spec r r0) as [Heq|Hr]; [subst r0|].
        -- destruct (Z.leb_spec r r); [|lia]. rewrite Z.sub_diag. reflexivity.
        -- destruct (Z.leb_spec r0 r); [lia | reflexivity].
    + destruct (Z.eqb_spec r r0); reflexivity.
Qed.

(** X9.  After [load_csv], the cell [(c, r)] holds the interpreted text of
    field [c] of row [r] of the rows (both counted from 1) when there is such
    a field, and what it held before otherwise. *)
Theorem load_csv_cells (rows : list (list string)) (self : Sheet.t) (c r : Z) :
  Sheet.values (Sheet.load_csv self rows) !! (c, r)
  = match field_at rows c r with
    | Some f => Some (Sheet.interpret_value (VStr f))
    | None => Sheet.values self !! (c, r)
    end.
Proof. unfold Sheet.load_csv, field_at. apply load_rows_lookup. Qed.

(** ** Values read from the sheet *)

Lemma interpret_value_cases (v : value) :
  (exists x, Sheet.interpret_value v = VFloat x /\ float_truthy x = true
             /\ py_float (py_str v) = OK x)
  \/ Sheet.interpret_value v = VStr (py_str v).
Proof.
  unfold Sheet.interpret_value, _safe_float.
  destruct (py_float (py_str v)) as [x|e]; [|now right].
  destruct (float_truthy x) eqn:Hx; [left; eauto | now right].
Qed.

(** X10.  Whatever the sheet stores and whatever the default is, [read]
    returns a text or a float that is not zero: never an [int], never
    [0.0]. *)
Theorem read_never_int_nor_zero (sh : Sheet.t) (index : Z * Z) (default : value) :
  match Sheet.read sh index default with
  | VFloat x => float_truthy x = true
  | VStr _ => True
  | VInt _ => False
  end.
Proof.
  unfold Sheet.read.
  destruct (interpret_value_cases
              match Sheet.values sh !! index with Some v => v | None => default end)
    as [(x & -> & Hx & _)| ->]; [exact Hx | exact I].
Qed.

(** X11.  [write] changes one cell only: reading any other index is
    unaffected; a second [write] to the same index replaces the first; a text
    that [float] does not parse reads back as written; and the cell written
    is set. *)
Theorem write_then_read (sh : Sheet.t) (index other : Z * Z) (v w default : value) :
  (other <> index ->
   Sheet.read (Sheet.write sh index v) other default = Sheet.read sh other default)
  /\ Sheet.write (Sheet.write sh index v) index w = Sheet.write sh index w
  /\ (forall s, v = VStr s -> py_float s = Raise ValueError ->
        Sheet.read (Sheet.write sh index v) index default = VStr s)
  /\ Sheet.values (Sheet.write sh index v) !! index <> None.
Proof.
  split; [|split; [|split]].
  - intros Hne. unfold Sheet.read, Sheet.write. simpl.
    now rewrite lookup_insert_ne.
  - unfold Sheet.write. simpl. now rewrite insert_insert_eq.
  - intros s -> Hs. rewrite read_write.
    assert (H : Sheet.interpret_value (VStr s) = VStr s).
    { unfold Sheet.interpret_value, _safe_float. simpl. now rewrite Hs. }
    now rewrite !H.
  - unfold Sheet.write. simpl. now rewrite lookup_insert_eq.
Qed.

Lemma write_then_read_witness :
  Sheet.read (Sheet.write Sheet.empty (1, 1) (VStr "hello")) (2, 1) (VStr "")
  = Sheet.read Sheet.empty (2, 1) (VStr "")
  /\ Sheet.read (Sheet.write Sheet.empty (1, 1) (VStr "hello")) (1, 1) (VStr "")
     = VStr "hello".
Proof.
  destruct (write_then_read Sheet.empty (1, 1) (2, 1) (VStr "hello") (VStr "") (VStr ""))
    as (Hother & _ & Hsame & _).
  split; [apply Hother; discriminate|].
  apply (Hsame "hello"%string); [reflexivity | vm_compute; reflexivity].
Defined.

(** ** Letter case and errors of the codec *)

Lemma upper_char_ok_all : forallb upper_char_ok (map Z.of_nat (seq 0 256)) = true.
Proof. vm_compute. reflexivity. Qed.

Lemma upper_char_facts (c : ascii) :
  is_letter (upper_char c) = is_letter c
  /\ is_digit (upper_char c) = is_digit c
  /\ upper_char (upper_char c) = upper_char c
  /\ upper_char (lower_char c) = upper_char c
  /\ Ascii.eqb (upper_char c) (chr 10) = Ascii.eqb c (chr 10)
  /\ (is_digit c = true -> upper_char c = c).
Proof.
  assert (Hok : upper_char_ok (code c) = true).
  { pose proof upper_char_ok_all as H. rewrite forallb_forall in H. apply H.
    pose proof (code_range c). apply in_map_iff. exists (Z.to_nat (code c)).
    split; [lia|]. apply in_seq. lia. }
  unfold upper_char_ok in Hok. rewrite chr_code in Hok.
  repeat (apply andb_prop in Hok as [Hok ?]).
  repeat split.
  - now apply Bool.eqb_prop.
  - now apply Bool.eqb_prop.
  - now apply Ascii.eqb_eq.
  - now apply Ascii.eqb_eq.
  - now apply Bool.eqb_prop.
  - intros Hd. rewrite Hd in *. now apply Ascii.eqb_eq.
Qed.

Lemma span_upper_letters (s : string) :
  span is_letter (upper s)
  = (upper (fst (span is_letter s)), upper (snd (span is_letter s))).
Proof.
  induction s as [|c s IH]; [reflexivity|]. simpl.
  destruct (upper_char_facts c) as (Hl & _). rewrite Hl.
  destruct (is_letter c); [|reflexivity].
  rewrite IH. destruct (span is_letter s). reflexivity.
Qed.

Lemma span_upper_digits (s : string) :
  span is_digit (upper s)
  = (fst (span is_digit s), upper (snd (span is_digit s))).
Proof.
  induction s as [|c s IH]; [reflexivity|]. simpl.
  destruct (upper_char_facts c) as (_ & Hd & _ & _ & _ & Hsame). rewrite Hd.
  destruct (is_digit c) eqn:Hc; [|reflexivity].
  rewrite IH, (Hsame eq_refl). destruct (span is_digit s). reflexivity.
Qed.

Lemma nonempty_upper (s : string) : nonempty (upper s) = nonempty s.
Proof. now destruct s. Qed.

Lemma upper_tail (t : string) :
  String.eqb (upper t) EmptyString || String.eqb (upper t) newline
  = String.eqb t EmptyString || String.eqb t newline.
Proof.
  destruct t as [|c t]; [reflexivity|].
  destruct t as [|d t].
  - simpl. destruct (upper_char_facts c) as (_ & _ & _ & _ & Hnl & _).
    unfold newline, str1. simpl. rewrite Hnl. reflexivity.
  - simpl. unfold newline, str1. simpl.
    destruct (Ascii.eqb (upper_char c) (chr 10)), (Ascii.eqb c (chr 10)); reflexivity.
Qed.

Lemma letters_loop_upper (s : string) (n : Z) :
  letters_loop (upper s) n = letters_loop s n.
Proof.
  revert n. induction s as [|c s IH]; intros n; [reflexivity|]. simpl.
  destruct (upper_char_facts c) as (_ & _ & -> & _).
  destruct (ALPHABET_index (upper_char c)); simpl; [apply IH | reflexivity].
Qed.

Lemma a1_to_index_upper (s : string) :
  a1_to_index (VStr (upper s)) = a1_to_index (VStr s).
Proof.
  unfold a1_to_index, A1_NOTATION_match.
  rewrite span_upper_letters. destruct (span is_letter s) as [letters rest].
  cbn [fst snd]. rewrite span_upper_digits.
  destruct (span is_digit rest) as [numbers tail]. cbn [fst snd].
  rewrite nonempty_upper, upper_tail.
  destruct (nonempty letters && nonempty numbers && _); [|reflexivity].
  unfold _letters_to_numbers. now rewrite letters_loop_upper.
Qed.

Lemma upper_app (s t : string) :
  upper (String.append s t) = String.append (upper s) (upper t).
Proof.
  induction s as [|c s IH]; [reflexivity|].
  rewrite append_cons. simpl. rewrite append_cons. now rewrite IH.
Qed.

Lemma upper_digits (s : string) : all_chars is_digit s = true -> upper s = s.
Proof.
  induction s as [|c s IH]; [reflexivity|]. simpl.
  intros H. apply andb_prop in H as [Hc Hs].
  destruct (upper_char_facts c) as (_ & _ & _ & _ & _ & Hsame).
  now rewrite (Hsame Hc), (IH Hs).
Qed.

Lemma upper_lower (s : string) : upper (lower s) = upper s.
Proof.
  induction s as [|c s IH]; [reflexivity|]. simpl.
  destruct (upper_char_facts c) as (_ & _ & _ & -> & _). now rewrite IH.
Qed.

(** X12.  [a1_to_index] ignores the case of the letters: two ASCII
    addresses with the same upper-casing give the same result (the same
    index, or the same exception). *)
Theorem a1_to_index_ignores_case (s t : string) :
  is_ascii s = true -> is_ascii t = true ->
  upper s = upper t -> a1_to_index (VStr s) = a1_to_index (VStr t).
Proof.
  intros _ _ H. now rewrite <- (a1_to_index_upper s), <- (a1_to_index_upper t), H.
Qed.

Lemma a1_to_index_ignores_case_witness :
  a1_to_index (VStr "aB12") = a1_to_index (VStr "Ab12")
  /\ a1_to_index (VStr "Ab12") = OK (28, 12).
Proof.
  split; [apply a1_to_index_ignores_case; reflexivity | vm_compute; reflexivity].
Defined.

(** X13.  What [a1_to_index] raises, and when.  On a value that is not a
    text it raises [TypeError]; on a text that does not match the pattern it
    raises [InvalidA1Notation]; on a text that matches with more digits than
    [int] accepts it raises [ValueError]; on every other text it returns, with
    a positive column (the [index] lookup of a matched letter never fails)
    and the value of the digits as the row. *)
Theorem a1_to_index_errors (a1 : value) :
  match a1 with
  | VStr s =>
      match A1_NOTATION_match s with
      | None => a1_to_index a1 = Raise InvalidA1Notation
      | Some (letters, numbers) =>
          if int_max_str_digits <? Z.of_nat (String.length numbers)
          then a1_to_index a1 = Raise ValueError
          else exists col,
                 a1_to_index a1 = OK (col, int_of_digits numbers) /\ 0 < col
      end
  | _ => a1_to_index a1 = Raise TypeError
  end.
Proof.
  destruct a1 as [x|s|n]; [reflexivity | | reflexivity].
  destruct (A1_NOTATION_match s) as [[letters numbers]|] eqn:Hm;
    [|simpl; now rewrite Hm].
  assert (Hall : all_chars is_letter letters = true).
  { unfold A1_NOTATION_match in Hm.
    pose proof (span_all_chars is_letter s) as Hall.
    destruct (span is_letter s) as [l rest].
    destruct (span is_digit rest) as [d tail].
    destruct (nonempty l && nonempty d && _); [|discriminate].
    now injection Hm as <- <-. }
  destruct (letters_loop_total letters 0 Hall) as (col & Hcol).
  assert (Hrun : a1_to_index (VStr s)
                 = (row ← py_int numbers; OK (col, row))).
  { simpl. rewrite Hm. unfold _letters_to_numbers. now rewrite Hcol. }
  unfold py_int in Hrun.
  destruct (int_max_str_digits <? Z.of_nat (String.length numbers)) eqn:Hlen;
    [exact Hrun|].
  exists col. split; [exact Hrun|].
  eapply a1_to_index_col_pos. exact Hrun.
Qed.

Lemma a1_to_index_errors_witness :
  a1_to_index (VStr "12B") = Raise InvalidA1Notation
  /\ a1_to_index (VFloat 1) = Raise TypeError
  /\ a1_to_index (VStr long_row_address) = Raise ValueError.
Proof.
  split; [exact (a1_to_index_errors (VStr "12B"))|].
  split; [exact (a1_to_index_errors (VFloat 1))|].
  pose proof (a1_to_index_errors (VStr long_row_address)) as H.
  vm_compute in H |- *. exact H.
Defined.

Lemma index_to_a1_inv (c r : Z) (s : string) :
  index_to_a1 (c, r) = OK s ->
  0 < r
  /\ exists letters,
       s = String.append letters (str_of_int r)
       /\ nonempty letters = true
       /\ all_chars is_letter letters = true
       /\ _letters_to_numbers letters = OK c.
Proof.
  unfold index_to_a1, valid_index. simpl.
  destruct (Z.ltb_spec 0 c) as [Hc|]; [|discriminate].
  destruct (Z.ltb_spec 0 r) as [Hr|]; [|discriminate]. simpl.
  destruct (numbers_to_letters_spec c Hc) as (letters & Hl & Hne & Hall & Hback).
  rewrite Hl. simpl. intros [= <-]. split; [exact Hr|]. now exists letters.
Qed.

(** X14.  [index_to_a1] is injective: two indices with the same address
    are the same index. *)
Theorem index_to_a1_injective (i j : Z * Z) (s : string) :
  index_to_a1 i = OK s -> index_to_a1 j = OK s -> i = j.
Proof.
  destruct i as [c r], j as [c' r']. intros Hi Hj.
  apply index_to_a1_inv in Hi as (Hr & l & -> & Hne & Hall & Hc).
  apply index_to_a1_inv in Hj as (Hr' & l' & Hs & Hne' & Hall' & Hc').
  destruct (str_of_int_spec r Hr) as (Dne & Dall & Dback).
  destruct (str_of_int_spec r' Hr') as (Dne' & Dall' & Dback').
  pose proof (A1_NOTATION_match_app l (str_of_int r) Hne Hall Dne Dall) as Hm.
  rewrite Hs, (A1_NOTATION_match_app l' (str_of_int r') Hne' Hall' Dne' Dall') in Hm.
  injection Hm as Hl Hd. subst l'. rewrite Hc in Hc'. injection Hc' as <-.
  f_equal. rewrite <- Dback, <- Dback'. now rewrite Hd.
Qed.

Lemma index_to_a1_injective_witness :
  index_to_a1 (27, 3) = OK "AA3"%string /\ (27, 3) = (27, 3).
Proof.
  split; [vm_compute; reflexivity|].
  apply (index_to_a1_injective (27, 3) (27, 3) "AA3"); vm_compute; reflexivity.
Defined.

(** ** SWAP *)

Lemma popn_two_app (vs : list value) (fs : list num) (a b c d : value)
    (items : list value) (st' : Stack.t) :
  Stack.popn 2 (Stack.mk (vs ++ [a; b]) fs) = OK (items, st') ->
  items = [a; b] /\ st' = Stack.mk vs fs
  /\ Stack.popn 2 (Stack.mk (vs ++ [c; d]) fs) = OK ([c; d], Stack.mk vs fs).
Proof.
  unfold Stack.popn. cbn [Stack.values Stack.frames].
  rewrite !len_app. change (len [a; b]) with 2. change (len [c; d]) with 2.
  destruct (match unsnoc fs with Some _ => _ | None => _ end) as [[]|];
    [|discriminate].
  cbv beta iota delta [mbind result_bind]. unfold py_assert.
  pose proof (len_nonneg vs).
  destruct (Z.leb_spec 2 (len vs + 2)); [|lia].
  assert (Hs : forall x y : value, slice_start (vs ++ [x; y]) (Z.opp 2) = length vs).
  { intros x y. rewrite (slice_start_last _ 2).
    - rewrite length_app. simpl. lia.
    - rewrite len_app. change (len [x; y]) with 2. lia. }
  rewrite !Hs, !take_app_length, !drop_app_length.
  intros [= <- <-]. auto.
Qed.

Lemma do_SWAP_eq (ip0 : Z * Z) (s : Interpreter) (vs : list value) (fs : list num)
    (a b : value) (items : list value) (st' : Stack.t) :
  stack s = Stack.mk (vs ++ [a; b]) fs ->
  Stack.popn 2 (stack s) = OK (items, st') ->
  do_SWAP ip0 s = Done false (set_stack (Stack.mk (vs ++ [b; a]) fs) s).
Proof.
  intros Hst Hpop. rewrite Hst in Hpop.
  destruct (popn_two_app vs fs a b a b items st' Hpop) as (-> & -> & _).
  unfold do_SWAP, mbind, M_bind, popn. rewrite Hst, Hpop. simpl.
  unfold push, modify. simpl. unfold Stack.push. simpl.
  rewrite <- !app_assoc. reflexivity.
Qed.

(** X15.  When SWAP returns, the interpreter it leaves is the one it
    started from with the two values on top of the stack exchanged: the values
    below them, the frames, the sheet, the instruction pointer, the condition,
    the return addresses and the console are as they were; it asks [run] to
    move to the next row; and a second SWAP returns and restores the
    interpreter. *)
Theorem swap_twice_restores (ip0 ip1 : Z * Z) (s s1 : Interpreter) (jumped : bool) :
  do_SWAP ip0 s = Done jumped s1 ->
  jumped = false
  /\ (exists vs a b,
        Stack.values (stack s) = vs ++ [a; b]
        /\ s1 = set_stack (Stack.mk (vs ++ [b; a]) (Stack.frames (stack s))) s)
  /\ do_SWAP ip1 s1 = Done false s.
Proof.
  intros Hrun.
  destruct (Stack.popn 2 (stack s)) as [[items st']|e] eqn:Hpop.
  2:{ unfold do_SWAP, mbind, M_bind, popn in Hrun. rewrite Hpop in Hrun. discriminate. }
  destruct (popn_two _ _ _ Hpop) as (a & b & -> & Hv & Hf).
  assert (Hst : stack s = Stack.mk (Stack.values st' ++ [a; b]) (Stack.frames (stack s))).
  { rewrite <- Hv. now destruct (stack s). }
  rewrite (do_SWAP_eq ip0 s _ _ a b _ _ Hst Hpop) in Hrun.
  injection Hrun as <- <-. split; [reflexivity|]. split.
  - exists (Stack.values st'), a, b. split; [exact Hv | reflexivity].
  - rewrite Hst in Hpop.
    destruct (popn_two_app _ _ a b b a _ _ Hpop) as (_ & _ & Hpop').
    rewrite (do_SWAP_eq ip1 _ (Stack.values st') (Stack.frames (stack s)) b a
               [b; a] (Stack.mk (Stack.values st') (Stack.frames (stack s))));
      [|reflexivity | exact Hpop'].
    f_equal. rewrite <- Hst. now destruct s.
Qed.

Lemma swap_twice_restores_witness :
  do_SWAP (1, 1) add_demo
  = Done false (set_stack (Stack.mk [VFloat 3; VFloat 2] []) add_demo)
  /\ do_SWAP (1, 1) (set_stack (Stack.mk [VFloat 3; VFloat 2] []) add_demo)
     = Done false add_demo.
Proof.
  split; [vm_compute; reflexivity|].
  apply (swap_twice_restores (1, 1) (1, 1) add_demo _ false). vm_compute. reflexivity.
Defined.

(** ** Handlers that peek, under a single frame *)

Lemma peek_fail (n : Z) (s : Interpreter) (e : exn) :
  Stack.peek n (stack s) = Raise e -> peek n s = Fail e s.
Proof. intros H. unfold peek. now rewrite H. Qed.

Lemma do_CALL_stack (ip0 : Z * Z) (s s1 : Interpreter) (jumped : bool) :
  do_CALL ip0 s = Done jumped s1 ->
  exists args, Stack.push_frame args (stack s) = OK (stack s1).
Proof.
  unfold do_CALL, address_argument, mbind, M_bind.
  rewrite !read_argument_eq.
  destruct (argument ip0 1); [|discriminate]. unfold lift.
  destruct (a1_to_index _); [|discriminate].
  rewrite !read_argument_eq.
  destruct (argument ip0 2); [|discriminate].
  unfold push_frame.
  destruct (Stack.push_frame _ (stack s)) as [st'|] eqn:Hf; [|discriminate].
  unfold modify, mret, M_ret. intros [= _ <-]. eauto.
Qed.

Lemma single_frame_peek_handlers (ip0 : Z * Z) (s : Interpreter) (f : num) :
  Stack.frames (stack s) = [f] ->
  do_DUP ip0 s = Fail IndexError s
  /\ do_OVER ip0 s = Fail IndexError s
  /\ do_TEST ip0 s = Fail IndexError s
  /\ (valid_index ip0 = true ->
      do_COMPARE ip0 s = Fail IndexError s
      /\ do_LT ip0 s = Fail IndexError s
      /\ do_GT ip0 s = Fail IndexError s).
Proof.
  intros Hf.
  assert (Hpeek : forall n, peek n s = Fail IndexError s).
  { intros n. apply peek_fail. destruct (stack s) as [vs fs]. simpl in Hf. subst fs.
    apply peek_single_frame. }
  unfold do_DUP, do_OVER, do_TEST, mbind, M_bind. rewrite !Hpeek.
  repeat (split; [reflexivity|]).
  intros Hv.
  assert (Hc : forall cmp, compare_handler cmp ip0 s = Fail IndexError s).
  { intros cmp. unfold compare_handler, mbind, M_bind, try_except.
    rewrite read_argument_eq, (argument_valid _ _ Hv).
    unfold lift, read, gets.
    destruct (a1_to_index _); simpl; rewrite ?Hpeek; reflexivity. }
  unfold do_COMPARE, do_LT, do_GT. rewrite !Hc. auto.
Qed.

(** X16.  After a CALL made with no frame on the stack, that is in every
    subroutine called from the top level, the opcodes that peek cannot be
    used: DUP, OVER and TEST, and COMPARE, LT and GT at a valid index, raise
    [IndexError] and leave the interpreter as it was, whatever the stack
    holds. *)
Theorem first_level_subroutine_cannot_peek (ip0 ip1 : Z * Z) (s s1 : Interpreter)
    (jumped : bool) :
  Stack.frames (stack s) = [] ->
  do_CALL ip0 s = Done jumped s1 ->
  do_DUP ip1 s1 = Fail IndexError s1
  /\ do_OVER ip1 s1 = Fail IndexError s1
  /\ do_TEST ip1 s1 = Fail IndexError s1
  /\ (valid_index ip1 = true ->
      do_COMPARE ip1 s1 = Fail IndexError s1
      /\ do_LT ip1 s1 = Fail IndexError s1
      /\ do_GT ip1 s1 = Fail IndexError s1).
Proof.
  intros Hnil Hcall. destruct (do_CALL_stack _ _ _ _ Hcall) as (args & Hpf).
  apply push_frame_spec in Hpf as (b & _ & Hst).
  apply (single_frame_peek_handlers ip1 s1 b).
  rewrite Hst, Hnil. reflexivity.
Qed.

Lemma first_level_subroutine_cannot_peek_witness :
  exists s1, run 1 call_demo = Continue s1 /\ do_DUP (2, 1) s1 = Fail IndexError s1.
Proof.
  eexists. split; [vm_compute; reflexivity|].
  refine (proj1 (first_level_subroutine_cannot_peek (1, 2) (2, 1) call_demo _ true _ _));
    vm_compute; reflexivity.
Defined.

(** ** Zero and the values of the sheet *)

Lemma compare_zero_scaled (v e : Z) :
  v <> 0 -> (if 0 <=? e then 0 ?= v * 2 ^ e else 0 * 2 ^ (- e) ?= v) <> Eq.
Proof.
  intros Hv. destruct (Z.leb_spec 0 e) as [He|He].
  - pose proof (Z.pow_pos_nonneg 2 e ltac:(lia) He).
    rewrite Z.compare_eq_iff. nia.
  - rewrite Z.compare_eq_iff. lia.
Qed.

Lemma truthy_float_is_not_zero (x : float) :
  float_truthy x = true -> py_eq (VFloat x) (VInt 0) = false.
Proof.
  unfold float_truthy. rewrite FloatAxioms.eqb_spec. intros Hx.
  unfold py_eq, to_num, num_eq, num_compare, compare_int_float.
  change (Prim2SF zero) with (S754_zero false) in Hx.
  destruct (Prim2SF x) as [s|s| |s m e]; try discriminate; try reflexivity.
  - destruct s; reflexivity.
  - pose proof (compare_zero_scaled (if s then Z.neg m else Z.pos m) e) as H.
    destruct (if 0 <=? e then _ else _); simpl; try reflexivity.
    exfalso. apply H; [destruct s; discriminate | reflexivity].
Qed.

Lemma peek_top_of_push (v : value) (st : Stack.t) (w : value) :
  Stack.peek 1 (Stack.push v st) = OK w -> w = v.
Proof.
  unfold Stack.peek, Stack.push. cbn [Stack.values Stack.frames].
  destruct (match Stack.frames st with [] => _ | _ => _ end); simpl; [|discriminate].
  rewrite len_app. change (len [v]) with 1.
  pose proof (len_nonneg (Stack.values st)).
  destruct (Z.ltb_spec (len (Stack.values st) + 1 - 1) 0); [discriminate|].
  unfold list_get.
  replace (Z.to_nat (len (Stack.values st) + 1 - 1)) with (length (Stack.values st) + 0)%nat
    by (unfold len; lia).
  rewrite lookup_app_r by lia.
  replace (length (Stack.values st) + 0 - length (Stack.values st))%nat with O by lia.
  simpl. now intros [= <-].
Qed.

(** X17.  TEST right after LOAD_CELL never sets the condition: no value
    read from the sheet equals [0], since a cell that parses as zero reads
    back as text. *)
Theorem loaded_value_never_tests_zero (ip0 ip1 : Z * Z) (s s1 s2 : Interpreter)
    (j1 j2 : bool) :
  do_LOAD_CELL ip0 s = Done j1 s1 ->
  do_TEST ip1 s1 = Done j2 s2 ->
  cond s2 = false
  /\ forall index default, py_eq (Sheet.read (sheet s) index default) (VInt 0) = false.
Proof.
  intros Hload Htest.
  assert (Hread : forall sh index default,
             py_eq (Sheet.read sh index default) (VInt 0) = false).
  { intros sh index default. unfold Sheet.read.
    destruct (interpret_value_cases
                match Sheet.values sh !! index with Some v => v | None => default end)
      as [(x & -> & Hx & _)| ->]; [|reflexivity].
    now apply truthy_float_is_not_zero. }
  split; [|apply Hread].
  unfold do_LOAD_CELL, address_argument, mbind, M_bind in Hload.
  rewrite read_argument_eq in Hload.
  destruct (argument ip0 1); [|discriminate]. unfold lift in Hload.
  destruct (a1_to_index _) as [address|]; [|discriminate].
  unfold read, gets, push, modify, mret, M_ret in Hload.
  injection Hload as _ <-.
  unfold do_TEST, mbind, M_bind, peek in Htest.
  cbn [stack set_stack] in Htest.
  destruct (Stack.peek 1 _) as [top|] eqn:Hp; [|discriminate].
  apply peek_top_of_push in Hp as ->.
  unfold modify, mret, M_ret in Htest. injection Htest as _ <-.
  cbn [cond set_cond]. apply Hread.
Qed.

Lemma loaded_value_never_tests_zero_witness :
  Sheet.values (sheet zero_load_demo) !! (3, 1) = Some (VStr "0")
  /\ exists s1 s2,
       do_LOAD_CELL (1, 1) zero_load_demo = Done false s1
       /\ do_TEST (1, 2) s1 = Done false s2
       /\ Stack.values (stack s2) = [VStr "0"]
       /\ cond s2 = false.
Proof.
  split; [vm_compute; reflexivity|].
  eexists _, _. split; [vm_compute; reflexivity|].
  split; [vm_compute; reflexivity|]. split; [vm_compute; reflexivity|].
  refine (proj1 (loaded_value_never_tests_zero (1, 1) (1, 2) zero_load_demo
                   _ _ false false _ _)); vm_compute; reflexivity.
Defined.

(** ** TEST and JUMP_IF *)

Lemma run_turn_method (s : Interpreter) (opcode name : string) (method : handler) :
  Sheet.read (sheet s) (ip s) (VStr "HALT") = VStr opcode ->
  upper opcode = name -> name <> "HALT"%string ->
  getattr (String.append "do_" name) = OK method ->
  run_turn s
  = match method (ip s) s with
    | Done jumped s' => Continue (if jumped then s' else next_row s')
    | Fail e s' => Raised e s'
    end.
Proof.
  intros Hread Hup Hne Hget.
  rewrite (run_turn_dispatch s opcode Hread); [|eapply upper_not_HALT; eassumption].
  now rewrite Hup, Hget.
Qed.

(** X18.  A TEST followed in the next row by JUMP_IF, run from the TEST:
    after the two turns the condition says whether the top of the stack
    equals [0]; the instruction pointer is the target of the JUMP_IF when it
    does and the row below the JUMP_IF when it does not; nothing else has
    changed. *)
Theorem test_then_jump_if (s : Interpreter) (test jump_if : string) (top : value)
    (t : Z * Z) :
  valid_index (ip s) = true ->
  Sheet.read (sheet s) (ip s) (VStr "HALT") = VStr test ->
  upper test = "TEST"%string ->
  Stack.peek 1 (stack s) = OK top ->
  Sheet.read (sheet s) (fst (ip s), snd (ip s) + 1) (VStr "HALT") = VStr jump_if ->
  upper jump_if = "JUMP_IF"%string ->
  a1_to_index (Sheet.read (sheet s) (fst (ip s) + 1, snd (ip s) + 1) (VStr "")) = OK t ->
  run 2 s
  = Continue (if py_eq top (VInt 0) then set_ip t (set_cond true s)
              else set_ip (fst (ip s), snd (ip s) + 2) (set_cond false s)).
Proof.
  intros Hv Htest Hup Hpeek Hjump Hup' Ht.
  assert (H1 : run_turn s = Continue (next_row (set_cond (py_eq top (VInt 0)) s))).
  { rewrite (run_turn_method s test "TEST" do_TEST Htest Hup); [|discriminate | reflexivity].
    unfold do_TEST, mbind, M_bind, peek. rewrite Hpeek. reflexivity. }
  set (s1 := next_row (set_cond (py_eq top (VInt 0)) s)) in *.
  assert (Hv1 : valid_index (ip s1) = true).
  { unfold valid_index in *. simpl. apply andb_prop in Hv as [Hc Hr].
    rewrite Hc. apply Z.ltb_lt in Hr. apply Z.ltb_lt. lia. }
  assert (H2 : run_turn s1
               = Continue (if py_eq top (VInt 0) then set_ip t (set_cond true s)
                           else set_ip (fst (ip s), snd (ip s) + 2) (set_cond false s))).
  { rewrite (run_turn_method s1 jump_if "JUMP_IF" do_JUMP_IF Hjump Hup');
      [|discriminate | reflexivity].
    unfold do_JUMP_IF, mbind, M_bind, self_cond, gets. cbn [cond s1 next_row set_ip set_cond].
    destruct (py_eq top (VInt 0)).
    - unfold do_JUMP, mbind, M_bind. rewrite (address_argument_eq _ _ Hv1).
      cbn [sheet ip s1 next_row set_ip set_cond fst snd]. rewrite Ht.
      unfold modify, mret, M_ret. f_equal.
    - unfold mret, M_ret. f_equal. unfold next_row. cbn [ip set_ip fst snd].
      unfold set_ip. simpl. do 2 f_equal. lia. }
  simpl. now rewrite H1, H2.
Qed.

Lemma test_then_jump_if_witness :
  (exists s2, run 2 (test_jump_demo 0) = Continue s2 /\ ip s2 = (3, 5) /\ cond s2 = true)
  /\ (exists s2, run 2 (test_jump_demo 1) = Continue s2 /\ ip s2 = (1, 3)
                 /\ cond s2 = false).
Proof.
  split.
  - eexists. split.
    + rewrite (test_then_jump_if (test_jump_demo 0) "TEST" "JUMP_IF" (VFloat 0) (3, 5));
        [reflexivity | vm_compute; reflexivity ..].
    + split; vm_compute; reflexivity.
  - eexists. split.
    + rewrite (test_then_jump_if (test_jump_demo 1) "TEST" "JUMP_IF" (VFloat 1) (3, 5));
        [reflexivity | vm_compute; reflexivity ..].
    + split; vm_compute; reflexivity.
Defined.

(** ** RANDINT *)

Lemma random_randint_range (a : Z) (b : option Z) (s s1 : Interpreter) (r : Z) :
  random_randint a b s = Done r s1 ->
  exists hi, b = Some hi /\ a <= r <= hi /\ s1 = set_drawn (S (drawn s)) s.
Proof.
  unfold random_randint, raise, mbind, M_bind, next_draw, mret, M_ret.
  destruct b as [b|]; [|discriminate].
  destruct (Z.ltb_spec b a); [discriminate|].
  intros [= <- <-]. exists b. split; [reflexivity|]. split; [|reflexivity].
  pose proof (Z.mod_pos_bound (draws s (drawn s)) (b - a + 1) ltac:(lia)). lia.
Qed.

(** X19.  When RANDINT returns, it has pushed one [int] and consumed one
    draw and nothing else has changed; the integer lies between the two
    bounds when the second is a number and either the first is [0] or the
    second is not, and between [1] and the first bound otherwise. *)
Theorem randint_range (ip0 : Z * Z) (s s1 : Interpreter) (jumped : bool)
    (x : float) (m : Z) (n : option Z) :
  valid_index ip0 = true ->
  Sheet.read (sheet s) (fst ip0 + 1, snd ip0) (VStr "") = VFloat x ->
  int_of_float x = OK m ->
  optional_bound (Sheet.read (sheet s) (fst ip0 + 2, snd ip0) (VStr "")) = OK n ->
  do_RANDINT ip0 s = Done jumped s1 ->
  exists r,
    s1 = set_stack (Stack.push (VInt r) (stack s)) (set_drawn (S (drawn s)) s)
    /\ match n with
       | Some hi => if (m =? 0) || negb (hi =? 0) then m <= r <= hi else 1 <= r <= m
       | None => m <> 0 /\ 1 <= r <= m
       end.
Proof.
  intros Hv Hm Hint Hn. unfold do_RANDINT, mbind, M_bind.
  rewrite !read_argument_eq, (argument_valid _ _ Hv), Hm.
  rewrite !read_argument_eq, (argument_valid _ _ Hv).
  unfold lift. rewrite Hint, Hn.
  destruct (if negb (m =? 0) && negb (bound_truthy n) then (1, Some m) else (m, n))
    as [a b] eqn:Hab.
  destruct (random_randint a b s) as [r s2|] eqn:Hr; [|discriminate].
  destruct (random_randint_range _ _ _ _ _ Hr) as (hi & Hb & Hrange & Hs2).
  subst b s2.
  unfold push, modify, mret, M_ret. intros [= _ <-].
  exists r. split; [reflexivity|].
  unfold bound_truthy in Hab.
  destruct (Z.eqb_spec m 0) as [Hm0|Hm0]; simpl in Hab.
  - injection Hab as Ha Hn'. rewrite Hn'. simpl. lia.
  - destruct n as [k|].
    + destruct (Z.eqb_spec k 0) as [Hk|Hk]; simpl in Hab; injection Hab as Ha Hn';
        simpl; lia.
    + simpl in Hab. injection Hab as Ha Hn'. split; [exact Hm0 | lia].
Qed.

Lemma randint_range_witness :
  exists r,
    after_randint
    = set_stack (Stack.push (VInt r) (stack randint_demo))
        (set_drawn (S (drawn randint_demo)) randint_demo)
    /\ 6 <> 0 /\ 1 <= r <= 6.
Proof.
  apply (randint_range (1, 1) randint_demo after_randint false 6%float 6 None);
    vm_compute; reflexivity.
Defined.

(** X20.  RANDINT raises [InvalidArgument] when its first argument is not
    a number, [TypeError] when the first truncates to [0] and the second is
    not a number, and [ValueError] when the second bound is not [0] and is
    below the first; each time the interpreter is left as it was. *)
Theorem randint_failures (ip0 : Z * Z) (s : Interpreter) :
  valid_index ip0 = true ->
  (is_float (Sheet.read (sheet s) (fst ip0 + 1, snd ip0) (VStr "")) = false ->
   do_RANDINT ip0 s = Fail InvalidArgument s)
  /\ (forall x,
        Sheet.read (sheet s) (fst ip0 + 1, snd ip0) (VStr "") = VFloat x ->
        int_of_float x = OK 0 ->
        is_float (Sheet.read (sheet s) (fst ip0 + 2, snd ip0) (VStr "")) = false ->
        do_RANDINT ip0 s = Fail TypeError s)
  /\ (forall x y lo hi,
        Sheet.read (sheet s) (fst ip0 + 1, snd ip0) (VStr "") = VFloat x ->
        Sheet.read (sheet s) (fst ip0 + 2, snd ip0) (VStr "") = VFloat y ->
        int_of_float x = OK lo -> int_of_float y = OK hi ->
        hi <> 0 -> hi < lo ->
        do_RANDINT ip0 s = Fail ValueError s).
Proof.
  intros Hv. split; [|split].
  - intros Hm. unfold do_RANDINT, mbind, M_bind.
    rewrite !read_argument_eq, (argument_valid _ _ Hv).
    rewrite !read_argument_eq, (argument_valid _ _ Hv).
    destruct (Sheet.read (sheet s) (fst ip0 + 1, snd ip0) (VStr "")); [discriminate|..];
      reflexivity.
  - intros x Hm Hint Hn. unfold do_RANDINT, mbind, M_bind.
    rewrite !read_argument_eq, (argument_valid _ _ Hv), Hm.
    rewrite !read_argument_eq, (argument_valid _ _ Hv).
    unfold lift. rewrite Hint.
    destruct (Sheet.read (sheet s) (fst ip0 + 2, snd ip0) (VStr "")); [discriminate|..];
      reflexivity.
  - intros x y lo hi Hm Hn Hlo Hhi Hne Hlt. unfold do_RANDINT, mbind, M_bind.
    rewrite !read_argument_eq, (argument_valid _ _ Hv), Hm.
    rewrite !read_argument_eq, (argument_valid _ _ Hv), Hn.
    unfold lift. rewrite Hlo. simpl. rewrite Hhi. simpl.
    destruct (Z.eqb_spec hi 0); [contradiction|]. rewrite andb_false_r.
    unfold random_randint. destruct (Z.ltb_spec hi lo); [reflexivity | lia].
Qed.

Lemma randint_failures_witness :
  do_RANDINT (1, 1) unknown_opcode_demo = Fail InvalidArgument unknown_opcode_demo.
Proof.
  apply (proj1 (randint_failures (1, 1) unknown_opcode_demo eq_refl)).
  vm_compute. reflexivity.
Defined.

(** ** A jump to itself *)

Lemma set_ip_same (s : Interpreter) : set_ip (ip s) s = s.
Proof. now destruct s. Qed.

(** X21.  A JUMP (in any letter case) whose argument is the address of
    its own cell never halts: after any number of turns [run] is still
    going, in the same state. *)
Theorem jump_to_itself_never_halts (s : Interpreter) (jump : string) :
  valid_index (ip s) = true ->
  Sheet.read (sheet s) (ip s) (VStr "HALT") = VStr jump ->
  upper jump = "JUMP"%string ->
  a1_to_index (Sheet.read (sheet s) (fst (ip s) + 1, snd (ip s)) (VStr "")) = OK (ip s) ->
  forall fuel, run fuel s = Continue s.
Proof.
  intros Hv Hread Hup Ht.
  assert (Hturn : run_turn s = Continue s).
  { rewrite (run_turn_method s jump "JUMP" do_JUMP Hread Hup); [|discriminate | reflexivity].
    unfold do_JUMP, mbind, M_bind. rewrite (address_argument_eq _ _ Hv), Ht.
    unfold modify, mret, M_ret. now rewrite set_ip_same. }
  induction fuel as [|fuel IH]; [reflexivity|]. simpl. now rewrite Hturn.
Qed.

Lemma jump_to_itself_never_halts_witness :
  run 1000 loop_demo = Continue loop_demo.
Proof.
  apply (jump_to_itself_never_halts loop_demo "jump"); vm_compute; reflexivity.
Defined.

(** ** STORE_CELL and LOAD_CELL *)

(** X22.  STORE_CELL pops the top of the stack and writes it to the cell
    named by its argument; a LOAD_CELL of the same address then pushes the
    value interpreted twice, which for a text that [float] does not parse is
    the text itself: the stack is then as before the STORE_CELL. *)
Theorem store_then_load (ip0 ip1 : Z * Z) (s : Interpreter) (t : Z * Z)
    (v : value) (st' : Stack.t) :
  valid_index ip0 = true -> valid_index ip1 = true ->
  a1_to_index (Sheet.read (sheet s) (fst ip0 + 1, snd ip0) (VStr "")) = OK t ->
  Stack.pop (stack s) = OK (v, st') ->
  let s1 := set_sheet (Sheet.write (sheet s) t v) (set_stack st' s) in
  a1_to_index (Sheet.read (sheet s1) (fst ip1 + 1, snd ip1) (VStr "")) = OK t ->
  do_STORE_CELL ip0 s = Done false s1
  /\ do_LOAD_CELL ip1 s1
     = Done false
         (set_stack
            (Stack.push (Sheet.interpret_value (Sheet.interpret_value v)) st') s1)
  /\ (forall text, v = VStr text -> py_float text = Raise ValueError ->
        do_LOAD_CELL ip1 s1 = Done false (set_sheet (Sheet.write (sheet s) t v) s)).
Proof.
  intros Hv0 Hv1 Ht Hpop s1 Ht1.
  assert (Hstore : do_STORE_CELL ip0 s = Done false s1).
  { unfold do_STORE_CELL, mbind, M_bind. rewrite (address_argument_eq _ _ Hv0), Ht.
    unfold pop. rewrite Hpop. reflexivity. }
  assert (Hload : do_LOAD_CELL ip1 s1
                  = Done false
                      (set_stack
                         (Stack.push (Sheet.interpret_value (Sheet.interpret_value v)) st')
                         s1)).
  { unfold do_LOAD_CELL, mbind, M_bind. rewrite (address_argument_eq _ _ Hv1), Ht1.
    unfold read, gets, push, modify, mret, M_ret.
    change (sheet s1) with (Sheet.write (sheet s) t v). rewrite read_write. reflexivity. }
  split; [exact Hstore|]. split; [exact Hload|].
  intros text -> Htext. rewrite Hload.
  assert (H : Sheet.interpret_value (VStr text) = VStr text).
  { unfold Sheet.interpret_value, _safe_float. simpl. now rewrite Htext. }
  rewrite !H. destruct (pop_inv _ _ _ Hpop) as (Hvals & Hf).
  f_equal. unfold s1, set_stack, set_sheet. simpl. f_equal.
  unfold Stack.push. rewrite <- Hvals, Hf. now destruct (stack s).
Qed.

Lemma store_then_load_witness :
  let s1 := set_sheet (Sheet.write (sheet store_load_demo) (4, 4) (VStr "note"))
              (set_stack (Stack.mk [VFloat 7] []) store_load_demo) in
  do_STORE_CELL (1, 1) store_load_demo = Done false s1
  /\ do_LOAD_CELL (1, 2) s1
     = Done false
         (set_sheet (Sheet.write (sheet store_load_demo) (4, 4) (VStr "note"))
            store_load_demo).
Proof.
  intros s1.
  destruct (store_then_load (1, 1) (1, 2) store_load_demo (4, 4) (VStr "note")
              (Stack.mk [VFloat 7] [])) as (Hstore & _ & Hload);
    try (vm_compute; reflexivity).
  split; [exact Hstore|]. apply (Hload "note"%string); vm_compute; reflexivity.
Defined.

(** ** What the results never raise *)

Lemma safe_OK {A : Type} (a : A) : safe (OK a).
Proof. discriminate. Qed.

Lemma safe_bind {A B : Type} (r : result A) (f : A -> result B) :
  safe r -> (forall a, safe (f a)) -> safe (r ≫= f).
Proof.
  unfold safe. destruct r as [a|e]; simpl; [auto|].
  intros Hr _ [= ->]. now apply Hr.
Qed.

Lemma safe_index_from (s : string) (c : ascii) (i : Z) : safe (index_from s c i).
Proof.
  revert i. induction s as [|d s IH]; intros i; simpl; [discriminate|].
  destruct (Ascii.eqb c d); [discriminate | apply IH].
Qed.

Lemma safe_letters_loop (s : string) (n : Z) : safe (letters_loop s n).
Proof.
  revert n. induction s as [|c s IH]; intros n; simpl; [discriminate|].
  apply safe_bind; [apply safe_index_from | intros; apply IH].
Qed.

Lemma safe_a1_to_index (a1 : value) : safe (a1_to_index a1).
Proof.
  destruct a1 as [x|s|n]; simpl; try discriminate.
  destruct (A1_NOTATION_match s) as [[letters numbers]|]; [|discriminate].
  apply safe_bind; [apply safe_letters_loop | intros col].
  apply safe_bind; [|intros; apply safe_OK].
  unfold py_int. destruct (_ <? _); discriminate.
Qed.

Lemma safe_argument (index : Z * Z) (n : Z) : safe (argument index n).
Proof. unfold argument, py_assert. destruct (valid_index index); discriminate. Qed.

Lemma safe_int_of_float (x : float) : safe (int_of_float x).
Proof. unfold int_of_float. destruct (Prim2SF x); discriminate. Qed.

Lemma safe_optional_bound (v : value) : safe (optional_bound v).
Proof.
  destruct v; simpl; try discriminate.
  apply safe_bind; [apply safe_int_of_float | intros; apply safe_OK].
Qed.

Lemma safe_float_of_int (n : Z) : safe (float_of_int n).
Proof. unfold float_of_int. destruct (binary_normalize _ _ _ _ _); discriminate. Qed.

Lemma safe_int_sub_num (n : Z) (a : num) : safe (int_sub_num n a).
Proof.
  destruct a; simpl; [discriminate|].
  apply safe_bind; [apply safe_float_of_int | intros; apply safe_OK].
Qed.

Lemma safe_py_assert (c : bool) : safe (py_assert c).
Proof. destruct c; discriminate. Qed.

Lemma safe_pop (st : Stack.t) : safe (Stack.pop st).
Proof.
  unfold Stack.pop. apply safe_bind.
  - destruct (unsnoc (Stack.frames st)) as [[? top]|]; [|discriminate].
    destruct (num_le _ top); discriminate.
  - intros _. destruct (unsnoc (Stack.values st)) as [[? ?]|]; discriminate.
Qed.

Lemma safe_popn (n : Z) (st : Stack.t) : safe (Stack.popn n st).
Proof.
  unfold Stack.popn. apply safe_bind.
  - destruct (unsnoc (Stack.frames st)) as [[? top]|]; [apply safe_py_assert | discriminate].
  - intros _. apply safe_bind; [apply safe_py_assert | discriminate].
Qed.

Lemma safe_list_get {A : Type} (l : list A) (i : Z) : safe (list_get l i).
Proof. unfold list_get. destruct (l !! Z.to_nat i); discriminate. Qed.

Lemma safe_peek (n : Z) (st : Stack.t) : safe (Stack.peek n st).
Proof.
  unfold Stack.peek. apply safe_bind.
  - destruct (Stack.frames st); [discriminate|].
    apply safe_bind; [apply safe_list_get|]. intros f. destruct (num_le _ f); discriminate.
  - intros _. destruct (_ <? 0); [discriminate | apply safe_list_get].
Qed.

Lemma safe_push_frame (args : num) (st : Stack.t) : safe (Stack.push_frame args st).
Proof.
  unfold Stack.push_frame. apply safe_bind; [apply safe_int_sub_num|]. intros top.
  apply safe_bind.
  - destruct (unsnoc (Stack.frames st)) as [[? ?]|]; apply safe_py_assert.
  - intros _. apply safe_bind; [apply safe_int_sub_num | discriminate].
Qed.

Lemma safe_float_ops (x y : float) :
  safe (float_add x y) /\ safe (float_sub x y) /\ safe (float_mul x y)
  /\ safe (float_truediv x y) /\ safe (float_mod x y).
Proof.
  unfold float_add, float_sub, float_mul, float_truediv, float_mod.
  repeat split; try discriminate.
  - destruct (PrimFloat.eqb y zero); discriminate.
  - destruct (PrimFloat.eqb y zero); [discriminate|].
    destruct (float_truthy (fmod x y)); discriminate.
Qed.

Lemma safe_py_lt (v w : value) : safe (py_lt v w) /\ safe (py_gt v w).
Proof. destruct v, w; split; discriminate. Qed.

(** ** What every handler but the control-flow ones and STORE_CELL respects *)

Section Respects.

Variable R : Interpreter -> Interpreter -> Prop.
Hypothesis R_refl : forall s, R s s.
Hypothesis R_trans : forall s1 s2 s3, R s1 s2 -> R s2 s3 -> R s1 s3.
Hypothesis R_stack :
  forall s st, Stack.frames st = Stack.frames (stack s) -> R s (set_stack st s).
Hypothesis R_cond : forall s c, R s (set_cond c s).
Hypothesis R_console_in : forall s x, R s (set_console_in x s).
Hypothesis R_console_out : forall s x, R s (set_console_out x s).
Hypothesis R_drawn : forall s n, R s (set_drawn n s).

Lemma respects_ret {A : Type} (a : A) : respects R (mret a).
Proof. intros s. apply R_refl. Qed.

Lemma respects_bind {A B : Type} (m : M A) (f : A -> M B) :
  respects R m -> (forall a, respects R (f a)) -> respects R (m ≫= f).
Proof.
  intros Hm Hf s. unfold mbind, M_bind. specialize (Hm s).
  destruct (m s) as [a s1|e s1]; [|exact Hm].
  specialize (Hf a s1). destruct (f a s1) as [b s2|e s2].
  - eapply R_trans; eassumption.
  - destruct Hf as [Hf He]. split; [eapply R_trans; eassumption | exact He].
Qed.

Lemma respects_lift {A : Type} (r : result A) : safe r -> respects R (lift r).
Proof.
  intros Hr s. unfold lift. destruct r as [a|e]; [apply R_refl|].
  split; [apply R_refl|]. intros ->. now apply Hr.
Qed.

Lemma respects_raise {A : Type} (e : exn) :
  e <> InvalidOpcode -> respects R (@raise A e).
Proof. intros He s. split; [apply R_refl | exact He]. Qed.

Lemma respects_gets {A : Type} (f : Interpreter -> A) : respects R (gets f).
Proof. intros s. apply R_refl. Qed.

Lemma respects_modify (f : Interpreter -> Interpreter) :
  (forall s, R s (f s)) -> respects R (modify f).
Proof. intros Hf s. apply Hf. Qed.

Lemma respects_push (v : value) : respects R (push v).
Proof. apply respects_modify. intros s. now apply R_stack. Qed.

Lemma respects_pop : respects R pop.
Proof.
  intros s. unfold pop. pose proof (safe_pop (stack s)) as Hs.
  destruct (Stack.pop (stack s)) as [[v st]|e] eqn:Hp.
  - apply R_stack. now apply pop_inv in Hp.
  - split; [apply R_refl|]. intros ->. now apply Hs.
Qed.

Lemma popn_frames (n : Z) (st st' : Stack.t) (items : list value) :
  Stack.popn n st = OK (items, st') -> Stack.frames st' = Stack.frames st.
Proof.
  unfold Stack.popn.
  destruct (match unsnoc (Stack.frames st) with Some _ => _ | None => _ end);
    simpl; [|discriminate].
  destruct (py_assert _); simpl; [|discriminate]. now intros [= _ <-].
Qed.

Lemma respects_popn (n : Z) : respects R (popn n).
Proof.
  intros s. unfold popn. pose proof (safe_popn n (stack s)) as Hs.
  destruct (Stack.popn n (stack s)) as [[v st]|e] eqn:Hp.
  - apply R_stack. now apply popn_frames in Hp.
  - split; [apply R_refl|]. intros ->. now apply Hs.
Qed.

Lemma respects_peek (n : Z) : respects R (peek n).
Proof.
  intros s. unfold peek. pose proof (safe_peek n (stack s)) as Hs.
  destruct (Stack.peek n (stack s)) as [v|e]; [apply R_refl|].
  split; [apply R_refl|]. intros ->. now apply Hs.
Qed.

Lemma respects_read (index : Z * Z) (default : value) : respects R (read index default).
Proof. apply respects_gets. Qed.

Lemma respects_read_argument (ip0 : Z * Z) (n : Z) (default : value) :
  respects R (read_argument ip0 n default).
Proof.
  apply respects_bind; [apply respects_lift, safe_argument|].
  intros. apply respects_read.
Qed.

Lemma respects_address_argument (ip0 : Z * Z) : respects R (address_argument ip0).
Proof.
  apply respects_bind; [apply respects_read_argument|].
  intros. apply respects_lift, safe_a1_to_index.
Qed.

Lemma respects_try_except {A : Type} (body handler : M A) :
  respects R body -> respects R handler -> respects R (try_except body handler).
Proof.
  intros Hb Hh s. unfold try_except. specialize (Hb s).
  destruct (body s) as [a s1|e s1]; [exact Hb|].
  destruct Hb as [Hb _]. specialize (Hh s1).
  destruct (handler s1) as [a s2|e' s2].
  - eapply R_trans; eassumption.
  - destruct Hh as [Hh He]. split; [eapply R_trans; eassumption | exact He].
Qed.

Lemma respects_push_all (items : list value) : respects R (push_all items).
Proof.
  induction items as [|v items IH]; simpl; [apply respects_ret|].
  apply respects_bind; [apply respects_push | intros; exact IH].
Qed.

Lemma respects_print (v : value) : respects R (print v).
Proof. apply respects_modify. intros s. apply R_console_out. Qed.

Lemma respects_input (prompt : string) : respects R (input prompt).
Proof.
  intros s. unfold input. destruct (console_in s) as [|line rest].
  - split; [apply R_console_out | discriminate].
  - eapply R_trans; [apply R_console_out | apply R_console_in].
Qed.

Lemma respects_next_draw : respects R next_draw.
Proof. intros s. apply R_drawn. Qed.

Lemma respects_random_random : respects R random_random.
Proof. apply respects_bind; [apply respects_next_draw | intros; apply respects_ret]. Qed.

Lemma respects_random_uniform (a b : num) : respects R (random_uniform a b).
Proof. apply respects_bind; [apply respects_random_random | intros; apply respects_ret]. Qed.

Lemma respects_random_randint (a : Z) (b : option Z) : respects R (random_randint a b).
Proof.
  unfold random_randint. destruct b as [b|]; [|now apply respects_raise].
  destruct (b <? a); [now apply respects_raise|].
  apply respects_bind; [apply respects_next_draw | intros; apply respects_ret].
Qed.

Ltac respects_step :=
  first
    [ apply respects_ret
    | apply respects_push
    | apply respects_pop
    | apply respects_popn
    | apply respects_peek
    | apply respects_address_argument
    | apply respects_read_argument
    | apply respects_read
    | apply respects_push_all
    | apply respects_print
    | apply respects_input
    | apply respects_random_random
    | apply respects_random_uniform
    | apply respects_random_randint
    | apply respects_raise; discriminate
    | apply respects_lift; first [ apply safe_a1_to_index | apply safe_int_of_float
                                 | apply safe_optional_bound | apply safe_argument ]
    | apply respects_bind; [|intros]
    | apply respects_modify; intros; apply R_cond
    | apply respects_gets ].

Lemma respects_arithmetic (op : float -> float -> result float) (ip0 : Z * Z) :
  (forall x y, safe (op x y)) -> respects R (arithmetic op ip0).
Proof.
  intros Hop. unfold arithmetic, _binary_arithmetic_check.
  apply respects_bind.
  - apply respects_bind; [apply respects_popn|]. intros items.
    destruct (forallb is_float items); repeat respects_step.
  - intros items.
    destruct items as [|[x| |] [|[y| |] [|? ?]]];
      repeat first [respects_step | apply respects_lift, Hop].
Qed.

Lemma respects_compare_handler (cmp : value -> value -> result bool) (ip0 : Z * Z) :
  (forall v w, safe (cmp v w)) -> respects R (compare_handler cmp ip0).
Proof.
  intros Hcmp. unfold compare_handler.
  apply respects_bind; [apply respects_read_argument|]. intros cell.
  apply respects_bind; [|intros; apply respects_ret].
  apply respects_try_except;
    repeat first [respects_step | apply respects_lift, Hcmp].
Qed.

Lemma respects_plain (name : string) (method : handler) (ip0 : Z * Z) :
  In (name, method) plain_methods -> respects R (method ip0).
Proof.
  unfold plain_methods. simpl.
  intros H. repeat (destruct H as [H|H]; [injection H as <- <-|]); [..|contradiction].
  all: try (apply respects_arithmetic; intros x y; apply (safe_float_ops x y)).
  all: try (apply respects_compare_handler; intros v w;
            first [discriminate | apply (safe_py_lt v w)]).
  - unfold do_LOAD_CELL. repeat respects_step.
  - unfold do_DROP. repeat respects_step.
  - unfold do_DUP. repeat respects_step.
  - unfold do_OVER. repeat respects_step.
  - unfold do_SWAP. repeat respects_step.
  - unfold do_UPPER. repeat respects_step.
  - unfold do_LOWER. repeat respects_step.
  - unfold do_CONCAT. apply respects_bind; [apply respects_popn|]. intros items.
    destruct (map py_str items) as [|? [|? [|? ?]]]; repeat respects_step.
  - unfold do_IN. apply respects_bind; [apply respects_read_argument|]. intros cell.
    destruct cell; repeat respects_step.
  - unfold do_OUT. repeat respects_step.
  - unfold do_TEST. repeat respects_step.
  - unfold do_INVERT_COND. repeat respects_step.
  - unfold do_RAND. repeat respects_step.
    destruct (num_eq _ _ && num_eq _ _); repeat respects_step.
  - unfold do_RANDINT. repeat respects_step.
    destruct a; repeat respects_step.
    match goal with |- context [let '(_, _) := ?p in _] => destruct p as [lo hi] end.
    repeat respects_step.
Qed.

End Respects.

(** ** Dispatch *)

Lemma find_attr_In {A : Type} (name : string) (l : list (string * A)) (v : A) :
  find_attr name l = Some v -> In (name, v) l.
Proof.
  induction l as [|[k w] l IH]; simpl; [discriminate|].
  destruct (String.eqb_spec name k) as [->|_].
  - intros [= ->]. now left.
  - intros H. right. now apply IH.
Qed.

Lemma methods_split (name : string) (method : handler) :
  In (name, method) methods ->
  In (name, method) plain_methods
  \/ (name, method) = ("do_STORE_CELL"%string, do_STORE_CELL)
  \/ In (name, method) control_methods.
Proof.
  unfold methods, plain_methods, control_methods. simpl.
  intros H.
  repeat (destruct H as [H|H]; [rewrite <- H; auto 40|]).
  contradiction.
Qed.

Lemma do_prefix_inj (x y : string) :
  String.append "do_" x = String.append "do_" y -> x = y.
Proof. vm_compute. now intros [= ->]. Qed.

Lemma run_turn_cases (s : Interpreter) :
  run_turn s = Return s
  \/ run_turn s = Raised AttributeError s
  \/ exists (op : string) (method : handler),
       Sheet.read (sheet s) (ip s) (VStr "HALT") = VStr op
       /\ In (String.append "do_" (upper op), method) methods
       /\ run_turn s
          = match method (ip s) s with
            | Done jumped s' => Continue (if jumped then s' else next_row s')
            | Fail e s' => Raised e s'
            end.
Proof.
  unfold run_turn.
  destruct (Sheet.read (sheet s) (ip s) (VStr "HALT")) as [x|op|n] eqn:Hr; simpl;
    [now left | | now left].
  destruct (String.eqb op "HALT"); simpl; [now left|].
  right. unfold getattr.
  destruct (find_attr _ methods) as [method|] eqn:Hf; [|now left].
  right. exists op, method. split; [reflexivity|]. split; [|reflexivity].
  exact (find_attr_In _ _ _ Hf).
Qed.

(** ** The control-flow handlers *)

Section ControlHandlers.

Variable R : Interpreter -> Interpreter -> Prop.
Hypothesis R_refl : forall s, R s s.
Hypothesis R_trans : forall s1 s2 s3, R s1 s2 -> R s2 s3 -> R s1 s3.
Hypothesis R_stack : forall s st, R s (set_stack st s).
Hypothesis R_ip : forall s t, R s (set_ip t s).
Hypothesis R_ret_stack : forall s l, R s (set_ret_stack l s).

Lemma respects_push_frame (args : num) : respects R (push_frame args).
Proof.
  intros s. unfold push_frame. pose proof (safe_push_frame args (stack s)) as Hs.
  destruct (Stack.push_frame args (stack s)) as [st|e]; [apply R_stack|].
  split; [apply R_refl|]. intros ->. now apply Hs.
Qed.

Lemma respects_do_JUMP (ip0 : Z * Z) : respects R (do_JUMP ip0).
Proof.
  unfold do_JUMP.
  apply respects_bind; [exact R_trans | now apply respects_address_argument|].
  intros address. apply respects_bind; [exact R_trans | | intros; now apply respects_ret].
  apply respects_modify. intros s. apply R_ip.
Qed.

Lemma respects_do_CALL (ip0 : Z * Z) : respects R (do_CALL ip0).
Proof.
  unfold do_CALL.
  apply respects_bind; [exact R_trans | now apply respects_address_argument|].
  intros address.
  apply respects_bind; [exact R_trans | now apply respects_read_argument|].
  intros args.
  apply respects_bind; [exact R_trans | apply respects_push_frame|]. intros _.
  apply respects_bind; [exact R_trans | apply respects_modify; intros; apply R_ret_stack|].
  intros _.
  apply respects_bind; [exact R_trans | apply respects_modify; intros; apply R_ip|].
  intros _. now apply respects_ret.
Qed.

Lemma respects_do_RETURN (ip0 : Z * Z) : respects R (do_RETURN ip0).
Proof.
  unfold do_RETURN. apply respects_bind; [exact R_trans | |].
  - intros s. destruct (unsnoc (ret_stack s)) as [[rest a]|].
    + apply R_ret_stack.
    + split; [apply R_refl | discriminate].
  - intros saved.
    apply respects_bind; [exact R_trans | apply respects_modify; intros; apply R_ip|].
    intros _. apply respects_bind; [exact R_trans | | intros; now apply respects_ret].
    apply respects_modify. intros s. apply R_stack.
Qed.

Lemma respects_control (name : string) (method : handler) (ip0 : Z * Z) :
  In (name, method) control_methods -> respects R (method ip0).
Proof.
  unfold control_methods. simpl.
  intros H. repeat (destruct H as [H|H]; [injection H as <- <-|]); [..|contradiction].
  - apply respects_do_JUMP.
  - unfold do_JUMP_IF. apply respects_bind; [exact R_trans | now apply respects_gets|].
    intros [|]; [apply respects_do_JUMP | now apply respects_ret].
  - apply respects_do_CALL.
  - unfold do_CALL_IF. apply respects_bind; [exact R_trans | now apply respects_gets|].
    intros [|]; [apply respects_do_CALL | now apply respects_ret].
  - apply respects_do_RETURN.
Qed.

End ControlHandlers.

(** ** Sheets without an opcode *)

Lemma opcode_free_spec (name : string) (sh : Sheet.t) :
  name <> "HALT"%string ->
  opcode_free name sh = true ->
  forall index op, Sheet.read sh index (VStr "HALT") = VStr op -> upper op <> name.
Proof.
  intros Hname Hfree index op. unfold Sheet.read.
  destruct (Sheet.values sh !! index) as [v|] eqn:Hl.
  - intros Hv. unfold opcode_free in Hfree. rewrite forallb_forall in Hfree.
    apply elem_of_map_to_list, list_elem_of_In in Hl.
    specialize (Hfree _ Hl). simpl in Hfree. rewrite Hv in Hfree.
    destruct (String.eqb_spec (upper op) name); [discriminate | assumption].
  - rewrite interpret_HALT. intros [= <-]. exact (fun H => Hname (eq_sym H)).
Qed.

(** ** STORE_CELL, for a relation that allows writing *)

Section StoreCell.

Variable R : Interpreter -> Interpreter -> Prop.
Hypothesis R_refl : forall s, R s s.
Hypothesis R_trans : forall s1 s2 s3, R s1 s2 -> R s2 s3 -> R s1 s3.
Hypothesis R_stack :
  forall s st, Stack.frames st = Stack.frames (stack s) -> R s (set_stack st s).
Hypothesis R_sheet : forall s sh, R s (set_sheet sh s).

Lemma respects_do_STORE_CELL (ip0 : Z * Z) : respects R (do_STORE_CELL ip0).
Proof.
  unfold do_STORE_CELL.
  apply respects_bind; [exact R_trans | now apply respects_address_argument|].
  intros address. apply respects_bind; [exact R_trans | now apply respects_pop|].
  intros v. apply respects_bind; [exact R_trans | | intros; now apply respects_ret].
  apply respects_modify. intros s. apply R_sheet.
Qed.

End StoreCell.

(** ** What the handlers return *)

Lemma returns_false_ret : returns_false (mret false).
Proof. now intros s j s' [= <- _]. Qed.

Lemma returns_false_raise (e : exn) : returns_false (raise e).
Proof. intros s j s'. discriminate. Qed.

Lemma returns_false_bind {A : Type} (m : M A) (f : A -> M bool) :
  (forall a, returns_false (f a)) -> returns_false (m ≫= f).
Proof.
  intros Hf s j s'. unfold mbind, M_bind.
  destruct (m s) as [a s1|e s1]; [apply Hf | discriminate].
Qed.

Ltac returns_false_step :=
  first
    [ apply returns_false_ret
    | apply returns_false_raise
    | apply returns_false_bind; intros
    | match goal with
      | |- returns_false (match ?x with _ => _ end) => destruct x
      end ].

Lemma straight_line_returns_false (name : string) (method : handler) (ip0 : Z * Z) :
  In (name, method) plain_methods \/ (name, method) = ("do_STORE_CELL"%string, do_STORE_CELL) ->
  returns_false (method ip0).
Proof.
  intros [H|H].
  - unfold plain_methods in H. simpl in H.
    repeat (destruct H as [H|H]; [injection H as <- <-|]); [..|contradiction].
    all: unfold do_LOAD_CELL, do_DROP, do_DUP, do_OVER, do_SWAP, do_ADD, do_SUB,
           do_MULT, do_DIV, do_FDIV, do_MOD, arithmetic, do_UPPER, do_LOWER,
           do_CONCAT, do_IN, do_OUT, do_TEST, do_COMPARE, do_LT, do_GT,
           compare_handler, do_INVERT_COND, do_RAND, do_RANDINT.
    all: repeat returns_false_step.
  - injection H as -> ->. unfold do_STORE_CELL. repeat returns_false_step.
Qed.

(** ** Every handler, one relation at a time *)

Lemma handlers_never_raise_InvalidOpcode (name : string) (method : handler) (ip0 : Z * Z) :
  In (name, method) methods -> respects anything (method ip0).
Proof.
  intros H. apply methods_split in H as [H|[H|H]].
  - revert H. apply respects_plain; unfold anything; tauto.
  - injection H as -> ->. apply respects_do_STORE_CELL; unfold anything; tauto.
  - revert H. apply respects_control; unfold anything; tauto.
Qed.

Lemma handlers_keep_the_sheet (name : string) (method : handler) (ip0 : Z * Z) :
  In (name, method) methods -> name <> "do_STORE_CELL"%string ->
  respects same_sheet (method ip0).
Proof.
  intros H Hname. apply methods_split in H as [H|[H|H]].
  - revert H. apply respects_plain; unfold same_sheet; simpl; try reflexivity.
    intros s1 s2 s3 H1 H2. congruence.
  - injection H as -> ->. contradiction.
  - revert H. apply respects_control; unfold same_sheet; simpl; try reflexivity.
    intros s1 s2 s3 H1 H2. congruence.
Qed.

Lemma straight_line_same_flow (name : string) (method : handler) (ip0 : Z * Z) :
  In (name, method) plain_methods \/ (name, method) = ("do_STORE_CELL"%string, do_STORE_CELL) ->
  respects same_flow (method ip0).
Proof.
  assert (Htrans : forall s1 s2 s3, same_flow s1 s2 -> same_flow s2 s3 -> same_flow s1 s3).
  { unfold same_flow. intros s1 s2 s3 (? & ? & ? & ?) (? & ? & ? & ?).
    repeat split; congruence. }
  intros [H|H].
  - revert H. apply respects_plain; try exact Htrans; unfold same_flow; simpl; tauto.
  - injection H as -> ->.
    apply respects_do_STORE_CELL; try exact Htrans; unfold same_flow; simpl; tauto.
Qed.

Lemma push_frame_frames (args : num) (st st' : Stack.t) :
  Stack.push_frame args st = OK st' ->
  exists b, Stack.frames st' = Stack.frames st ++ [b].
Proof.
  unfold Stack.push_frame.
  destruct (int_sub_num _ _) as [top|]; simpl; [|discriminate].
  destruct (match unsnoc (Stack.frames st) with Some _ => _ | None => _ end);
    simpl; [|discriminate].
  intros [= <-]. simpl. now exists top.
Qed.

Lemma keeps_balance_trans (s1 s2 s3 : Interpreter) :
  keeps_balance s1 s2 -> keeps_balance s2 s3 -> keeps_balance s1 s3.
Proof. unfold keeps_balance. tauto. Qed.

Lemma keeps_balance_stack (s : Interpreter) (st : Stack.t) :
  Stack.frames st = Stack.frames (stack s) -> keeps_balance s (set_stack st s).
Proof. unfold keeps_balance, balanced. simpl. now intros ->. Qed.

Lemma keeps_balance_do_CALL (ip0 : Z * Z) : respects keeps_balance (do_CALL ip0).
Proof.
  unfold do_CALL.
  apply respects_bind; [exact keeps_balance_trans | |].
  { apply respects_address_argument; [now intros s | exact keeps_balance_trans]. }
  intros address. apply respects_bind; [exact keeps_balance_trans | |].
  { apply respects_read_argument; [now intros s | exact keeps_balance_trans]. }
  intros args s. unfold mbind, M_bind, push_frame, modify.
  pose proof (safe_push_frame (call_args args) (stack s)) as Hs.
  destruct (Stack.push_frame (call_args args) (stack s)) as [st|e] eqn:Hp.
  - apply push_frame_frames in Hp as [b Hb]. unfold keeps_balance, balanced. simpl.
    rewrite Hb, !length_app. simpl. lia.
  - split; [now intros H | intros ->; now apply Hs].
Qed.

Lemma keeps_balance_do_RETURN (ip0 : Z * Z) : respects keeps_balance (do_RETURN ip0).
Proof.
  intros s. unfold do_RETURN, mbind, M_bind, modify, pop_frame.
  destruct (unsnoc (ret_stack s)) as [[rest a]|] eqn:Hr.
  - apply unsnoc_Some in Hr. unfold keeps_balance, balanced. simpl.
    rewrite Hr, length_app. simpl. unfold Stack.pop_frame.
    destruct (unsnoc (Stack.frames (stack s))) as [[fs f]|] eqn:Hf.
    + apply unsnoc_Some in Hf. rewrite Hf, length_app. simpl. lia.
    + apply unsnoc_nil_iff in Hf. rewrite Hf. simpl. lia.
  - split; [now intros H | discriminate].
Qed.

Lemma handlers_keep_balance (name : string) (method : handler) (ip0 : Z * Z) :
  In (name, method) methods -> respects keeps_balance (method ip0).
Proof.
  assert (Hrefl : forall s, keeps_balance s s) by now intros s.
  assert (Hset : forall f, (forall s, balanced (f s) = balanced s) ->
                           forall s, keeps_balance s (f s)).
  { intros f Hf s. unfold keeps_balance. now rewrite Hf. }
  intros H. apply methods_split in H as [H|[H|H]].
  - revert H. apply respects_plain;
      first [ exact Hrefl | exact keeps_balance_trans | exact keeps_balance_stack
            | intros s x; now apply (Hset (fun s => _ x s)) ].
  - injection H as -> ->.
    apply respects_do_STORE_CELL;
      first [ exact Hrefl | exact keeps_balance_trans | exact keeps_balance_stack
            | intros s x; now apply (Hset (fun s => _ x s)) ].
  - unfold control_methods in H. simpl in H.
    repeat (destruct H as [H|H]; [injection H as <- <-|]); [..|contradiction].
    + apply respects_do_JUMP; [exact Hrefl | exact keeps_balance_trans|].
      intros s t. now apply (Hset (set_ip t)).
    + unfold do_JUMP_IF.
      apply respects_bind; [exact keeps_balance_trans | now apply respects_gets|].
      intros [|]; [|now apply respects_ret].
      apply respects_do_JUMP; [exact Hrefl | exact keeps_balance_trans|].
      intros s t. now apply (Hset (set_ip t)).
    + apply keeps_balance_do_CALL.
    + unfold do_CALL_IF.
      apply respects_bind; [exact keeps_balance_trans | now apply respects_gets|].
      intros [|]; [apply keeps_balance_do_CALL | now apply respects_ret].
    + apply keeps_balance_do_RETURN.
Qed.

Lemma control_names (name : string) (method : handler) :
  In (name, method) control_methods ->
  exists op, name = String.append "do_" op /\ In op control_opcodes.
Proof.
  intros [H|[H|[H|[H|[H|[]]]]]]; injection H as <- _;
    [ exists "JUMP"%string | exists "JUMP_IF"%string | exists "CALL"%string
    | exists "CALL_IF"%string | exists "RETURN"%string ];
    (split; [reflexivity | simpl; tauto]).
Qed.

(** ** One turn of the loop, whatever the handler *)

Lemma run_turn_never_InvalidOpcode (s s' : Interpreter) (e : exn) :
  run_turn s = Raised e s' -> e <> InvalidOpcode.
Proof.
  destruct (run_turn_cases s) as [->|[->|(op & method & _ & Hin & ->)]];
    [discriminate | now intros [= <- _] |].
  pose proof (handlers_never_raise_InvalidOpcode _ _ (ip s) Hin s) as H.
  destruct (method (ip s) s) as [j s1|e1 s1]; [discriminate|].
  intros [= <- _]. apply H.
Qed.

Lemma run_turn_keeps_the_sheet (s : Interpreter) :
  (forall op, Sheet.read (sheet s) (ip s) (VStr "HALT") = VStr op ->
              upper op <> "STORE_CELL"%string) ->
  sheet (state_of (run_turn s)) = sheet s.
Proof.
  intros Hop.
  destruct (run_turn_cases s) as [->|[->|(op & method & Hr & Hin & ->)]];
    [reflexivity | reflexivity |].
  assert (Hname : String.append "do_" (upper op) <> "do_STORE_CELL"%string).
  { intros H. apply (Hop op Hr). now apply do_prefix_inj. }
  pose proof (handlers_keep_the_sheet _ _ (ip s) Hin Hname s) as H.
  destruct (method (ip s) s) as [[|] s1|e1 s1]; simpl; [exact H | exact H | apply H].
Qed.

Lemma run_turn_keeps_balance (s : Interpreter) :
  balanced s -> balanced (state_of (run_turn s)).
Proof.
  intros Hb.
  destruct (run_turn_cases s) as [->|[->|(op & method & Hr & Hin & ->)]];
    [exact Hb | exact Hb |].
  pose proof (handlers_keep_balance _ _ (ip s) Hin s) as H.
  destruct (method (ip s) s) as [[|] s1|e1 s1]; simpl.
  - now apply H.
  - apply (H Hb).
  - now apply H.
Qed.

(** ** The whole run *)

(** X23.  [run] never raises [InvalidOpcode], whatever the sheet holds and
    however long it runs: an unknown opcode raises [AttributeError] at
    [getattr], a bound method is never false, and no handler raises it. *)
Theorem run_never_raises_InvalidOpcode (fuel : nat) (s s' : Interpreter) :
  run fuel s <> Raised InvalidOpcode s'.
Proof.
  revert s. induction fuel as [|fuel IH]; intros s; simpl; [discriminate|].
  destruct (run_turn s) as [s1|s1|e s1] eqn:Ht; [discriminate | apply IH |].
  intros [= -> _]. now apply (run_turn_never_InvalidOpcode _ _ _ Ht).
Qed.

(** X24.  Only STORE_CELL writes to the sheet: when no cell reads as a
    text that upper-cases to STORE_CELL, the sheet is the same after any
    number of turns, whether [run] then has returned, has raised or is still
    going. *)
Theorem sheet_changes_only_by_STORE_CELL (s : Interpreter) (fuel : nat) :
  (forall index op, Sheet.read (sheet s) index (VStr "HALT") = VStr op ->
                    upper op <> "STORE_CELL"%string) ->
  sheet (state_of (run fuel s)) = sheet s.
Proof.
  revert s. induction fuel as [|fuel IH]; intros s Hop; simpl; [reflexivity|].
  pose proof (run_turn_keeps_the_sheet s (Hop (ip s))) as Ht.
  destruct (run_turn s) as [s1|s1|e s1]; simpl in Ht |- *; try exact Ht.
  rewrite <- Ht. apply IH. rewrite Ht. exact Hop.
Qed.

Lemma sheet_changes_only_by_STORE_CELL_witness :
  sheet (state_of (run 3 call_demo)) = sheet call_demo.
Proof.
  apply (sheet_changes_only_by_STORE_CELL call_demo 3).
  apply opcode_free_spec; [discriminate | vm_compute; reflexivity].
Defined.

(** X25.  [run] keeps one frame for each pending return address: when the
    frames are as many as the return addresses, as they are after [reset],
    they still are after any number of turns, however [run] ends. *)
Theorem run_keeps_frames_balanced (s : Interpreter) (fuel : nat) :
  length (Stack.frames (stack s)) = length (ret_stack s) ->
  let s' := state_of (run fuel s) in
  length (Stack.frames (stack s')) = length (ret_stack s').
Proof.
  revert s. induction fuel as [|fuel IH]; intros s Hb; simpl; [exact Hb|].
  pose proof (run_turn_keeps_balance s Hb) as Ht.
  destruct (run_turn s) as [s1|s1|e s1]; simpl in Ht |- *; try exact Ht.
  now apply IH.
Qed.

Lemma run_keeps_frames_balanced_witness :
  ret_stack (state_of (run 1 call_demo)) = [(1, 2)]
  /\ length (Stack.frames (stack (state_of (run 1 call_demo)))) = 1%nat.
Proof.
  split; [reflexivity|].
  change 1%nat with (length (ret_stack (state_of (run 1 call_demo)))) at 2.
  apply (run_keeps_frames_balanced call_demo 1). reflexivity.
Defined.

(** X26.  Every opcode other than JUMP, JUMP_IF, CALL, CALL_IF and RETURN
    that returns moves the instruction pointer one row down in its column and
    leaves the return addresses and the frames as they were. *)
Theorem straight_line_opcodes_advance (s s' : Interpreter) (op : string) :
  Sheet.read (sheet s) (ip s) (VStr "HALT") = VStr op ->
  ~ In (upper op) control_opcodes ->
  run_turn s = Continue s' ->
  ip s' = (fst (ip s), snd (ip s) + 1)
  /\ ret_stack s' = ret_stack s
  /\ Stack.frames (stack s') = Stack.frames (stack s).
Proof.
  intros Hr Hop.
  destruct (run_turn_cases s) as [->|[->|(op' & method & Hr' & Hin & ->)]];
    [discriminate | discriminate |].
  rewrite Hr in Hr'. injection Hr' as <-.
  assert (Hsplit : (In (String.append "do_" (upper op), method) plain_methods
                    \/ (String.append "do_" (upper op), method)
                       = ("do_STORE_CELL"%string, do_STORE_CELL))
                   \/ In (String.append "do_" (upper op), method) control_methods).
  { destruct (methods_split _ _ Hin) as [H|[H|H]]; [left; now left | left; now right | now right]. }
  clear Hin. destruct Hsplit as [Hin|Hin].
  - pose proof (straight_line_same_flow _ _ (ip s) Hin s) as Hflow.
    pose proof (straight_line_returns_false _ _ (ip s) Hin s) as Hfalse.
    destruct (method (ip s) s) as [j s1|e1 s1]; [|discriminate].
    rewrite (Hfalse j s1 eq_refl). intros [= <-].
    destruct Hflow as (_ & Hip & Hrs & Hfs). simpl. now rewrite Hip.
  - exfalso. apply Hop.
    destruct (control_names _ _ Hin) as (name & Hn & Hc).
    apply do_prefix_inj in Hn. now rewrite Hn.
Qed.

Lemma straight_line_opcodes_advance_witness :
  exists s', run_turn add_demo = Continue s'
             /\ ip s' = (1, 2) /\ ret_stack s' = [] /\ Stack.frames (stack s') = [].
Proof.
  eexists. split; [vm_compute; reflexivity|].
  apply (straight_line_opcodes_advance add_demo _ "add").
  - vm_compute. reflexivity.
  - vm_compute. intros [H|[H|[H|[H|[H|[]]]]]]; discriminate.
  - vm_compute. reflexivity.
Defined.

(** * The claims of the specification *)

(** C1 (the code departs from it).  A text at the instruction pointer that
    is the halt opcode in another letter case than HALT, the empty string,
    or the text 0 that a stored zero reads back as, does not stop [run]
    normally: it is taken for an opcode name and [run] raises. *)
Theorem halt_variants_raise (s : Interpreter) (opcode : string) :
  Sheet.read (sheet s) (ip s) (VStr "HALT") = VStr opcode ->
  opcode <> "HALT"%string ->
  upper opcode = "HALT"%string \/ opcode = ""%string \/ opcode = "0"%string ->
  forall fuel, run (S fuel) s = Raised AttributeError s.
Proof.
  intros Hread Hne Hcase fuel.
  assert (Hturn : run_turn s = Raised AttributeError s).
  { rewrite (run_turn_dispatch s opcode Hread Hne).
    destruct Hcase as [->|[->| ->]]; reflexivity. }
  simpl. now rewrite Hturn.
Qed.

Lemma halt_variants_raise_witness :
  (Sheet.values (sheet halt_lower_demo) !! (1, 1) = Some (VStr "halt")
   /\ run 1 halt_lower_demo = Raised AttributeError halt_lower_demo)
  /\ (Sheet.values (sheet empty_cell_demo) !! (1, 1) = Some (VStr "")
      /\ run 1 empty_cell_demo = Raised AttributeError empty_cell_demo)
  /\ (Sheet.values (sheet zero_cell_demo) !! (1, 1) = Some (VStr "0")
      /\ run 1 zero_cell_demo = Raised AttributeError zero_cell_demo).
Proof.
  split; [|split]; (split; [vm_compute; reflexivity|]).
  - apply (halt_variants_raise halt_lower_demo "halt");
      [vm_compute; reflexivity | discriminate | left; reflexivity].
  - apply (halt_variants_raise empty_cell_demo "");
      [vm_compute; reflexivity | discriminate | right; left; reflexivity].
  - apply (halt_variants_raise zero_cell_demo "0");
      [vm_compute; reflexivity | discriminate | right; right; reflexivity].
Defined.

(** C2 (the code departs from it).  A string that parses as a number equal
    to zero is stored and read back as the text itself, not as a number:
    [interpret_value] tests the parsed float for truth, and zero is false. *)
Theorem zero_text_reads_back_as_text (sh : Sheet.t) (index : Z * Z)
    (default : value) (s : string) (x : float) :
  py_float s = OK x -> float_truthy x = false ->
  Sheet.read (Sheet.write sh index (VStr s)) index default = VStr s.
Proof.
  intros Hparse Hzero. rewrite read_write.
  assert (H : Sheet.interpret_value (VStr s) = VStr s).
  { unfold Sheet.interpret_value, _safe_float. simpl. now rewrite Hparse, Hzero. }
  now rewrite !H.
Qed.

Lemma zero_text_reads_back_as_text_witness :
  py_float "0" = OK zero
  /\ Sheet.read (Sheet.write Sheet.empty (1, 1) (VStr "0")) (1, 1) (VStr "") = VStr "0".
Proof.
  split; [vm_compute; reflexivity|].
  apply (zero_text_reads_back_as_text Sheet.empty (1, 1) (VStr "") "0" zero);
    vm_compute; reflexivity.
Defined.

(** C3.  For all positive [c] and [r] (with [r] within the digits that
    [int] reads back), formatting [(c, r)] and parsing the result gives
    [(c, r)] back; every address made of letters, in either case, followed by
    digits that denote a positive row parses, to that row, and formatting
    what it parses to gives a string that parses to the same coordinates;
    the same holds of every string that [a1_to_index] accepts with a positive
    row; and (1,1), (26,1), (27,1), (702,3), (703,3) correspond to A1, Z1,
    AA1, ZZ3, AAA3 in both directions. *)
Theorem a1_round_trip :
  (forall c r : Z, 0 < c -> 0 < r -> r < 10 ^ int_max_str_digits ->
     exists s, index_to_a1 (c, r) = OK s /\ a1_to_index (VStr s) = OK (c, r))
  /\ (forall letters digits : string,
        nonempty letters = true -> all_chars is_letter letters = true ->
        nonempty digits = true -> all_chars is_digit digits = true ->
        Z.of_nat (String.length digits) <= int_max_str_digits ->
        0 < int_of_digits digits ->
        exists c s',
          a1_to_index (VStr (String.append letters digits))
          = OK (c, int_of_digits digits)
          /\ a1_to_index (VStr (String.append (upper letters) digits))
             = OK (c, int_of_digits digits)
          /\ index_to_a1 (c, int_of_digits digits) = OK s'
          /\ a1_to_index (VStr s') = OK (c, int_of_digits digits))
  /\ (forall (s : string) (c r : Z), a1_to_index (VStr s) = OK (c, r) -> 0 < r ->
        exists s', index_to_a1 (c, r) = OK s' /\ a1_to_index (VStr s') = OK (c, r))
  /\ (index_to_a1 (1, 1) = OK "A1"%string /\ a1_to_index (VStr "A1") = OK (1, 1))
  /\ (index_to_a1 (26, 1) = OK "Z1"%string /\ a1_to_index (VStr "Z1") = OK (26, 1))
  /\ (index_to_a1 (27, 1) = OK "AA1"%string /\ a1_to_index (VStr "AA1") = OK (27, 1))
  /\ (index_to_a1 (702, 3) = OK "ZZ3"%string /\ a1_to_index (VStr "ZZ3") = OK (702, 3))
  /\ (index_to_a1 (703, 3) = OK "AAA3"%string /\ a1_to_index (VStr "AAA3") = OK (703, 3)).
Proof.
  split; [exact index_round_trip|].
  split; [|split; [exact address_round_trip | repeat split; vm_compute; reflexivity]].
  intros letters digits Hne Hall Dne Dall Hlen Hrow.
  destruct (letters_loop_total letters 0 Hall) as (c & Hc).
  assert (Hparse : a1_to_index (VStr (String.append letters digits))
                   = OK (c, int_of_digits digits)).
  { unfold a1_to_index.
    rewrite (A1_NOTATION_match_app letters digits Hne Hall Dne Dall).
    unfold _letters_to_numbers. rewrite Hc. simpl. unfold py_int.
    destruct (Z.ltb_spec int_max_str_digits (Z.of_nat (String.length digits)));
      [lia | reflexivity]. }
  assert (Hupper : a1_to_index (VStr (String.append (upper letters) digits))
                   = OK (c, int_of_digits digits)).
  { rewrite <- Hparse, <- (a1_to_index_upper (String.append letters digits)).
    f_equal. f_equal. rewrite upper_app. f_equal. symmetry. now apply upper_digits. }
  destruct (address_round_trip _ _ _ Hparse Hrow) as (s' & Hs' & Hback).
  exists c, s'. auto.
Qed.

Lemma a1_round_trip_witness :
  (exists s, index_to_a1 (18278, 10000) = OK s
             /\ a1_to_index (VStr s) = OK (18278, 10000))
  /\ (exists c s',
        a1_to_index (VStr "aB007") = OK (c, 7)
        /\ a1_to_index (VStr "AB007") = OK (c, 7)
        /\ index_to_a1 (c, 7) = OK s'
        /\ a1_to_index (VStr s') = OK (c, 7)).
Proof.
  split.
  - apply (proj1 a1_round_trip 18278 10000); [lia | lia | vm_compute; reflexivity].
  - apply (proj1 (proj2 a1_round_trip) "aB"%string "007"%string);
      first [reflexivity | vm_compute; discriminate].
Defined.

(** C4 (as amended).  Each of ADD, SUB, MULT, DIV, FDIV, MOD is the handler
    [arithmetic op] for its operator.  When [popn(2)] fails the handler fails
    in the same way and the interpreter is as it was.  Otherwise it has popped
    exactly the two values on top and nothing else: when one of them is not a
    float (a text, or an [int]) it raises [ArithmeticError]; when both are
    floats it applies the operator to the pair taken bottom to top and pushes
    the result, except that DIV, FDIV and MOD raise [ZeroDivisionError], and
    push nothing, when the right operand is zero.  The operators are float
    addition, subtraction, multiplication, true division for DIV and for FDIV
    alike, and for MOD the remainder of [fmod] moved to the sign of the
    divisor. *)
Theorem arithmetic_opcodes_spec (name : string) (op : float -> float -> result float)
    (ip0 : Z * Z) (s : Interpreter) :
  In (name, op) arithmetic_opcodes ->
  getattr (String.append "do_" name) = OK (arithmetic op)
  /\ match Stack.popn 2 (stack s) with
     | Raise e => arithmetic op ip0 s = Fail e s
     | OK (items, st') =>
         exists item1 item2,
           items = [item1; item2]
           /\ Stack.values (stack s) = Stack.values st' ++ [item1; item2]
           /\ Stack.frames st' = Stack.frames (stack s)
           /\ arithmetic op ip0 s
              = match item1, item2 with
                | VFloat x, VFloat y =>
                    match op x y with
                    | OK r => Done false (set_stack (Stack.push (VFloat r) st') s)
                    | Raise e => Fail e (set_stack st' s)
                    end
                | _, _ => Fail ArithmeticError (set_stack st' s)
                end
     end
  /\ (forall x y,
        op x y
        = if String.eqb name "ADD" then OK (PrimFloat.add x y)
          else if String.eqb name "SUB" then OK (PrimFloat.sub x y)
          else if String.eqb name "MULT" then OK (PrimFloat.mul x y)
          else if PrimFloat.eqb y zero then Raise ZeroDivisionError
          else if String.eqb name "MOD" then
            let m := fmod x y in
            OK (if PrimFloat.eqb m zero
                then (if PrimFloat.ltb y zero then neg_zero else zero)
                else if xorb (PrimFloat.ltb y zero) (PrimFloat.ltb m zero)
                     then PrimFloat.add m y
                     else m)
          else OK (PrimFloat.div x y))
  /\ do_DIV = do_FDIV.
Proof.
  intros Hin.
  split; [now apply arithmetic_dispatch|].
  split; [|split; [|reflexivity]].
  - destruct (Stack.popn 2 (stack s)) as [[items st']|e] eqn:Hpop.
    + destruct (popn_two _ _ _ Hpop) as (item1 & item2 & _ & _ & Hframes).
      destruct (arithmetic_spec op ip0 s items st' Hpop)
        as (a & b & Hitems & Hvals & Hrun).
      exists a, b. split; [exact Hitems|]. split; [exact Hvals|].
      split; [exact Hframes|]. exact Hrun.
    + unfold arithmetic, _binary_arithmetic_check, popn, mbind, M_bind.
      now rewrite Hpop.
  - intros x y. unfold arithmetic_opcodes in Hin. simpl in Hin.
    destruct Hin as [H|[H|[H|[H|[H|[H|[]]]]]]]; injection H as <- <-;
      try reflexivity.
    unfold float_mod, float_truthy. cbn [String.eqb Ascii.eqb Bool.eqb].
    destruct (PrimFloat.eqb y zero); [reflexivity|].
    cbv zeta. now destruct (PrimFloat.eqb (fmod x y) zero).
Qed.

Lemma arithmetic_opcodes_spec_witness :
  do_ADD (1, 1) add_demo
  = Done false (set_stack (Stack.mk [VFloat 5] []) add_demo)
  /\ do_ADD (1, 1) add_text_demo
     = Fail ArithmeticError (set_stack Stack.empty add_text_demo)
  /\ do_ADD (1, 1) unknown_opcode_demo = Fail AssertionError unknown_opcode_demo
  /\ float_truediv 7 2 = OK 3.5%float
  /\ float_mod (-7) 3 = OK 2%float
  /\ float_mod 7 (-3) = OK (-2)%float
  /\ float_mod 1 0 = Raise ZeroDivisionError.
Proof.
  assert (Hadd : In ("ADD"%string, float_add) arithmetic_opcodes) by (simpl; auto).
  assert (Hdiv : In ("DIV"%string, float_truediv) arithmetic_opcodes)
    by (simpl; auto 6).
  assert (Hmod : In ("MOD"%string, float_mod) arithmetic_opcodes)
    by (simpl; auto 8).
  split; [|split; [|split; [|split; [|split; [|split]]]]].
  - destruct (arithmetic_opcodes_spec "ADD" float_add (1, 1) add_demo Hadd)
      as (_ & H & _).
    change (Stack.popn 2 (stack add_demo))
      with (@OK (list value * Stack.t) ([VFloat 2; VFloat 3], Stack.empty)) in H.
    destruct H as (a & b & Hitems & _ & _ & Hrun).
    injection Hitems as <- <-. exact Hrun.
  - destruct (arithmetic_opcodes_spec "ADD" float_add (1, 1) add_text_demo Hadd)
      as (_ & H & _).
    change (Stack.popn 2 (stack add_text_demo))
      with (@OK (list value * Stack.t) ([VFloat 2; VStr "x"], Stack.empty)) in H.
    destruct H as (a & b & Hitems & _ & _ & Hrun).
    injection Hitems as <- <-. exact Hrun.
  - destruct (arithmetic_opcodes_spec "ADD" float_add (1, 1) unknown_opcode_demo Hadd)
      as (_ & H & _).
    exact H.
  - destruct (arithmetic_opcodes_spec "DIV" float_truediv (1, 1) add_demo Hdiv)
      as (_ & _ & H & _).
    rewrite H. vm_compute. reflexivity.
  - destruct (arithmetic_opcodes_spec "MOD" float_mod (1, 1) add_demo Hmod)
      as (_ & _ & H & _).
    rewrite H. vm_compute. reflexivity.
  - destruct (arithmetic_opcodes_spec "MOD" float_mod (1, 1) add_demo Hmod)
      as (_ & _ & H & _).
    rewrite H. vm_compute. reflexivity.
  - destruct (arithmetic_opcodes_spec "MOD" float_mod (1, 1) add_demo Hmod)
      as (_ & _ & H & _).
    rewrite H. vm_compute. reflexivity.
Defined.

(** C4 (as stated) fails twice.  DIV over the two floats 1.0 and 0.0 pops
    both and pushes nothing: it raises [ZeroDivisionError].  And ADD over the
    float 1.0 and the [int] that RANDINT has just pushed, two numbers, pops
    both and pushes nothing: it raises [ArithmeticError], because the check is
    [type(item)==float]. *)
Lemma zero_divisor_and_int_operand_push_nothing :
  (stack div_zero_demo = Stack.mk [VFloat 1; VFloat 0] []
   /\ forallb is_float [VFloat 1; VFloat 0] = true
   /\ do_DIV (1, 1) div_zero_demo
      = Fail ZeroDivisionError (set_stack Stack.empty div_zero_demo)
   /\ run 1 div_zero_demo
      = Raised ZeroDivisionError (set_stack Stack.empty div_zero_demo))
  /\ (run 1 randint_demo = Continue (next_row after_randint)
      /\ stack (next_row after_randint) = Stack.mk [VFloat 1; VInt 1] []
      /\ do_ADD (1, 2) (next_row after_randint)
         = Fail ArithmeticError (set_stack Stack.empty (next_row after_randint))
      /\ run 2 randint_demo
         = Raised ArithmeticError (set_stack Stack.empty (next_row after_randint))).
Proof.
  split; [split; [|split; [|split]] | split; [|split; [|split]]];
    vm_compute; reflexivity.
Qed.



(** C6 (as amended).  For COMPARE, LT and GT: when argument 1 resolves as
    an address, the top of the stack can be read and its comparison with the
    value at that address is defined, the flag is set to that comparison;
    when the resolution fails, the flag is set to the comparison of the
    second value from the top with the top one (when both can be read and
    compared); no value is popped in either case; and LOAD_CELL, STORE_CELL,
    JUMP and CALL let a resolution failure end the run. *)
Theorem compare_resolution_fallback (do_OP : handler)
    (cmp : value -> value -> result bool) (ip0 : Z * Z) (s : Interpreter)
    (cell : value) :
  In (do_OP, cmp) comparison_opcodes ->
  valid_index ip0 = true ->
  Sheet.read (sheet s) (fst ip0 + 1, snd ip0) (VStr "") = cell ->
  (forall address top c,
     a1_to_index cell = OK address ->
     Stack.peek 1 (stack s) = OK top ->
     cmp top (Sheet.read (sheet s) address (VStr "")) = OK c ->
     do_OP ip0 s = Done false (set_cond c s))
  /\ (forall e second top c,
        a1_to_index cell = Raise e ->
        Stack.peek 2 (stack s) = OK second ->
        Stack.peek 1 (stack s) = OK top ->
        cmp second top = OK c ->
        do_OP ip0 s = Done false (set_cond c s))
  /\ (forall c, stack (set_cond c s) = stack s)
  /\ (forall e,
        a1_to_index cell = Raise e ->
        do_LOAD_CELL ip0 s = Fail e s
        /\ do_STORE_CELL ip0 s = Fail e s
        /\ do_JUMP ip0 s = Fail e s
        /\ do_CALL ip0 s = Fail e s).
Proof.
  intros Hin Hv <-.
  assert (Hop : do_OP = compare_handler cmp).
  { unfold comparison_opcodes in Hin. simpl in Hin.
    destruct Hin as [H|[H|[H|[]]]]; injection H as <- <-; reflexivity. }
  subst do_OP. split; [|split; [|split]].
  - intros. eapply compare_handler_resolved; eassumption.
  - intros. eapply compare_handler_fallback; eassumption.
  - reflexivity.
  - intros e He. now apply resolution_failure_propagates.
Qed.

Lemma compare_resolution_fallback_witness :
  do_COMPARE (1, 1) compare_address_demo
  = Done false (set_cond true compare_address_demo)
  /\ do_LT (1, 1) compare_literal_demo
     = Done false (set_cond true compare_literal_demo)
  /\ do_JUMP (1, 1) compare_literal_demo = Fail TypeError compare_literal_demo.
Proof.
  destruct (compare_resolution_fallback do_COMPARE (fun v w => OK (py_eq v w))
              (1, 1) compare_address_demo (VStr "C1"))
    as (Hcmp & _ & _ & _);
    [simpl; auto | reflexivity | vm_compute; reflexivity |].
  destruct (compare_resolution_fallback do_LT py_lt
              (1, 1) compare_literal_demo (VFloat 7))
    as (_ & Hlt & _ & Hp);
    [simpl; auto | reflexivity | vm_compute; reflexivity |].
  split; [|split].
  - apply (Hcmp (3, 1) (VFloat 2) true); vm_compute; reflexivity.
  - apply (Hlt TypeError (VFloat 1) (VFloat 2) true); vm_compute; reflexivity.
  - apply (Hp TypeError). vm_compute; reflexivity.
Defined.

(** C6 (as stated) fails: LT whose argument resolves to the address C1,
    over the stack [1.0, 2.0] with the text abc in C1.  The resolution
    succeeds, comparing the top 2.0 with the text raises [TypeError], and the
    flag is set from the fallback comparison 1.0 < 2.0. *)
Lemma comparison_failure_takes_fallback :
  a1_to_index (Sheet.read (sheet lt_text_demo) (2, 1) (VStr "")) = OK (3, 1)
  /\ Sheet.read (sheet lt_text_demo) (3, 1) (VStr "") = VStr "abc"
  /\ Stack.peek 1 (stack lt_text_demo) = OK (VFloat 2)
  /\ py_lt (VFloat 2) (VStr "abc") = Raise TypeError
  /\ py_lt (VFloat 1) (VFloat 2) = OK true
  /\ cond lt_text_demo = false
  /\ do_LT (1, 1) lt_text_demo = Done false (set_cond true lt_text_demo).
Proof. repeat split; vm_compute; reflexivity. Qed.

(** C7 (the code departs from it).  With exactly one frame on the stack
    [peek] raises [IndexError] for every [n] and every content: it reads
    [frames[1]], which does not exist.  [pop] succeeds on the same stack;
    and with two frames [peek(1)] refuses the value just above the boundary
    that [pop] returns. *)
Theorem peek_fails_under_single_frame :
  (forall (vs : list value) (f : num) (n : Z),
     Stack.peek n (Stack.mk vs [f]) = Raise IndexError)
  /\ Stack.push_frame (NInt 1) (Stack.mk [VFloat 1] []) = OK (Stack.mk [VFloat 1] [NInt 0])
  /\ Stack.peek 1 (Stack.mk [VFloat 1] [NInt 0]) = Raise IndexError
  /\ Stack.pop (Stack.mk [VFloat 1] [NInt 0]) = OK (VFloat 1, Stack.mk [] [NInt 0])
  /\ Stack.peek 1 (Stack.mk [VFloat 1; VFloat 2] [NInt 0; NInt 1]) = Raise IndexError
  /\ Stack.pop (Stack.mk [VFloat 1; VFloat 2] [NInt 0; NInt 1])
     = OK (VFloat 2, Stack.mk [VFloat 1] [NInt 0; NInt 1]).
Proof.
  split; [exact peek_single_frame|].
  repeat split; vm_compute; reflexivity.
Qed.

(** C8 (the code departs from it).  For every non-empty string of letters,
    [a1_to_index] accepts the address with the row 0 and returns that row,
    an index that [index_to_a1] and [argument] reject by their assertion. *)
Theorem a1_to_index_accepts_row_zero (letters : string) :
  nonempty letters = true -> all_chars is_letter letters = true ->
  exists col,
    a1_to_index (VStr (String.append letters "0")) = OK (col, 0)
    /\ index_to_a1 (col, 0) = Raise AssertionError
    /\ argument (col, 0) 1 = Raise AssertionError.
Proof.
  intros Hne Hall.
  destruct (letters_loop_total letters 0 Hall) as (col & Hcol).
  exists col. split; [|split].
  - unfold a1_to_index.
    rewrite (A1_NOTATION_match_app letters "0" Hne Hall eq_refl eq_refl).
    unfold _letters_to_numbers. rewrite Hcol. reflexivity.
  - unfold index_to_a1, valid_index. simpl. now rewrite andb_false_r.
  - unfold argument, valid_index. simpl. now rewrite andb_false_r.
Qed.

Lemma a1_to_index_accepts_row_zero_witness :
  a1_to_index (VStr "A0") = OK (1, 0)
  /\ exists col,
       a1_to_index (VStr "A0") = OK (col, 0)
       /\ index_to_a1 (col, 0) = Raise AssertionError
       /\ argument (col, 0) 1 = Raise AssertionError.
Proof.
  split; [vm_compute; reflexivity|].
  apply (a1_to_index_accepts_row_zero "A"); reflexivity.
Defined.

(** The pattern's [$] also accepts one newline after the address. *)
Lemma a1_to_index_accepts_trailing_newline :
  a1_to_index (VStr (String.append "A1" newline)) = OK (1, 1).
Proof. vm_compute. reflexivity. Qed.

(** C9 (the code departs from it).  A text at the instruction pointer that
    is not HALT and names no handler makes [run] raise [AttributeError],
    from [getattr]; [InvalidOpcode] is not raised. *)
Theorem unknown_opcode_raises_AttributeError (s : Interpreter) (opcode : string) :
  Sheet.read (sheet s) (ip s) (VStr "HALT") = VStr opcode ->
  opcode <> "HALT"%string ->
  find_attr (String.append "do_" (upper opcode)) methods = None ->
  run_turn s = Raised AttributeError s
  /\ forall fuel, run (S fuel) s = Raised AttributeError s.
Proof.
  intros Hread Hne Hnone.
  assert (H : run_turn s = Raised AttributeError s).
  { rewrite (run_turn_dispatch s opcode Hread Hne). unfold getattr. now rewrite Hnone. }
  split; [exact H|]. intros fuel. simpl. now rewrite H.
Qed.

Lemma unknown_opcode_raises_AttributeError_witness :
  Sheet.values (sheet unknown_opcode_demo) !! (1, 1) = Some (VStr "FOO")
  /\ run 1 unknown_opcode_demo = Raised AttributeError unknown_opcode_demo.
Proof.
  split; [vm_compute; reflexivity|].
  apply (unknown_opcode_raises_AttributeError unknown_opcode_demo "FOO").
  - vm_compute. reflexivity.
  - discriminate.
  - vm_compute. reflexivity.
Defined.

(** C10.  When RANDINT returns it has pushed an [int]; an [int] is not a
    [float], and each of ADD, SUB, MULT, DIV, FDIV, MOD raises
    [ArithmeticError] whenever that value is one of the two it pops. *)
Theorem randint_value_fails_arithmetic (ip0 : Z * Z) (s s1 : Interpreter)
    (jumped : bool) :
  do_RANDINT ip0 s = Done jumped s1 ->
  exists r : Z,
    stack s1 = Stack.push (VInt r) (stack s)
    /\ is_float (VInt r) = false
    /\ forall name op ip1 s2 items st',
         In (name, op) arithmetic_opcodes ->
         Stack.popn 2 (stack s2) = OK (items, st') ->
         In (VInt r) items ->
         getattr (String.append "do_" name) = OK (arithmetic op)
         /\ arithmetic op ip1 s2 = Fail ArithmeticError (set_stack st' s2).
Proof.
  intros Hrun. destruct (do_RANDINT_pushes_int _ _ _ _ Hrun) as (r & Hr).
  exists r. split; [exact Hr|]. split; [reflexivity|].
  intros name op ip1 s2 items st' Hin Hpop Hint.
  split; [now apply arithmetic_dispatch|].
  eapply arithmetic_on_int; eassumption.
Qed.

Lemma randint_value_fails_arithmetic_witness :
  do_RANDINT (1, 1) randint_demo = Done false after_randint
  /\ run 2 randint_demo
     = Raised ArithmeticError (set_stack Stack.empty (next_row after_randint))
  /\ exists r : Z,
       stack after_randint = Stack.push (VInt r) (stack randint_demo)
       /\ forall name op,
            In (name, op) arithmetic_opcodes ->
            arithmetic op (1, 2) (next_row after_randint)
            = Fail ArithmeticError (set_stack Stack.empty (next_row after_randint)).
Proof.
  split; [vm_compute; reflexivity|].
  split; [vm_compute; reflexivity|].
  destruct (randint_value_fails_arithmetic (1, 1) randint_demo after_randint false)
    as (r & Hpush & _ & Hfail); [vm_compute; reflexivity|].
  exists r. split; [exact Hpush|].
  intros name op Hin.
  apply (Hfail name op (1, 2) (next_row after_randint) [VFloat 1; VInt r] Stack.empty Hin).
  - change (stack (next_row after_randint)) with (stack after_randint).
    rewrite Hpush. vm_compute. reflexivity.
  - simpl. auto.
Defined.
